(** * frankmocap: the hand-mocap demo driver (demo/demo_handmocap.py)

    A shallow embedding of [run_hand_mocap], [NonBlockVisualizer.update_renderer]
    and [main].  The driver is effectful glue code: every call it makes into
    OpenCV, Open3D, the detector, the regressor and the renderer is recorded as
    an [event], the Python locals that survive from one loop iteration to the
    next are the fields of [state], and [continue], [break] and uncaught
    exceptions are the signals of a small state/trace/exit monad [M]. *)

From Stdlib Require Import ZArith QArith List String Ascii Bool Lia.
From Stdlib Require Import DecimalString DecimalN DecimalPos.
Import ListNotations.
Open Scope string_scope.
Open Scope Z_scope.

(** ** Command-line options read by the driver

    [DemoOptions] lives in demo/demo_options.py; only the attributes that
    demo_handmocap.py reads are kept, each with the Python type it is used at. *)

Record Args := {
  out_dir : option string;      (* None is Python's None *)
  seq_name : string;
  start_frame : Z;               (* compared and added to as an int *)
  end_frame : Z;
  save_frame : bool;
  crop_type : string;
  save_bbox_output : bool;
  no_display : bool;
  save_pred_pkl : bool;
  no_video_out : bool;
  renderer_type : string
}.

(** ** Values that flow through the loop *)

(** A box is the four numbers of a numpy array. *)
Definition bbox := list Z.

(** [dict(left_hand = ..., right_hand = ...)]: a dict from hand name to a box or
    None, kept as an association list so that a missing key differs from a key
    bound to None. *)
Definition hand_bbox := list (string * option bbox).

Definition point3 := (Q * Q * Q)%type.

(** What a dict lookup followed by a subscript can meet. *)
Inductive entry (A : Type) :=
| Missing                  (* the key is not in the dict *)
| PyNone                   (* the key is bound to None *)
| Bound (a : A).
Arguments Missing {A}.
Arguments PyNone {A}.
Arguments Bound {A} a.

(** One element of [pred_output_list]: a dict with the two hands; each hand,
    when present, is a dict of arrays of which the driver reads only
    ['pred_joints_smpl']. *)
Record hand_pred := {
  pred_joints_smpl : entry (list point3)
}.

Record pred_output := {
  left_hand : entry hand_pred;
  right_hand : entry hand_pred
}.

(** One item of the list that [setup_input] returns for a directory of
    pre-computed boxes. *)
Record bbox_item := {
  item_image_path : string;
  item_hand_bbox_list : list hand_bbox;
  item_body_bbox_list : list bbox
}.

(** [detect_hand_bbox] returns a 4-tuple; [body_pose_list] and
    [raw_hand_bboxes] are bound by the driver and never read again, so the
    embedding keeps the two components that are. *)
Record detect_output := {
  det_body_bbox_list : list bbox;
  det_hand_bbox_list : list hand_bbox
}.

(** Uncaught Python exceptions. *)
Inductive exn :=
| AssertionError (msg : string)
| UnboundLocalError (name : string)
| IndexError
| KeyError (key : string)
| TypeError
| AttributeError
| RuntimeError.

(** ** Small library functions used by the driver *)

(** [f"{n:05d}"]: sign first, then zero padding up to five characters. *)
Fixpoint zeros (n : nat) : string :=
  match n with
  | O => ""
  | S n' => String "0" (zeros n')
  end.

Definition zfill (width : nat) (s : string) : string :=
  zeros (width - String.length s) ++ s.

Definition digits (n : N) : string := NilZero.string_of_uint (N.to_uint n).

Definition format_05d (z : Z) : string :=
  if z <? 0 then "-" ++ zfill 4 (digits (Z.abs_N z))
  else zfill 5 (digits (Z.to_N z)).

(** [posixpath.join] for two components. *)
Definition ends_with_sep (s : string) : bool :=
  match get (String.length s - 1) s with
  | Some c => Ascii.eqb c "/"
  | None => false
  end.

Definition starts_with_sep (s : string) : bool :=
  match s with
  | String c _ => Ascii.eqb c "/"
  | EmptyString => false
  end.

Definition path_join (a b : string) : string :=
  if starts_with_sep b then b
  else if (String.length a =? 0)%nat || ends_with_sep a then a ++ b
  else a ++ "/" ++ b.

(** Python's list subscript [l[i]] with an int index: negative indices count
    from the end, anything outside [-len, len) raises IndexError. *)
Definition py_index {A : Type} (l : list A) (i : Z) : option A :=
  let n := Z.of_nat (List.length l) in
  if (0 <=? i) && (i <? n) then nth_error l (Z.to_nat i)
  else if (- n <=? i) && (i <? 0) then nth_error l (Z.to_nat (n + i))
  else None.

(** Python's dict subscript on an association list. *)
Fixpoint dict_get {A : Type} (d : list (string * A)) (k : string) : option A :=
  match d with
  | [] => None
  | (k', v) :: d' => if String.eqb k' k then Some v else dict_get d' k
  end.

(** ** The point cloud: [pcd.transform] with a 4x4 matrix

    Open3D multiplies the homogeneous point (x, y, z, 1) by the matrix and
    divides by the fourth component.  Coordinates are exact rationals here. *)

Definition row4 := (Q * Q * Q * Q)%type.
Definition mat4 := (row4 * row4 * row4 * row4)%type.

Definition dot4 (r : row4) (p : point3) : Q :=
  let '(a, b, c, d) := r in
  let '(x, y, z) := p in
  (a * x + b * y + c * z + d * 1)%Q.

Definition transform_point (m : mat4) (p : point3) : point3 :=
  let '(r0, r1, r2, r3) := m in
  let w := dot4 r3 p in
  ((dot4 r0 p / w)%Q, (dot4 r1 p / w)%Q, (dot4 r2 p / w)%Q).

Definition transform (m : mat4) (pts : list point3) : list point3 :=
  map (transform_point m) pts.

(** The matrix of line 177. *)
Definition flip_y : mat4 :=
  ((1, 0, 0, 0), (0, -(1), 0, 0), (0, 0, 1, 0), (0, 0, 0, 1))%Q.

(** The 21 joint colours set up before the loop (lines 64-72). *)
Definition colors : list (Z * Z * Z) :=
  [(0, 255, 255)]
  ++ repeat (0, 0, 0) 4
  ++ repeat (255, 0, 0) 4
  ++ repeat (0, 255, 0) 4
  ++ repeat (0, 0, 255) 4
  ++ repeat (255, 255, 0) 4.


(** ** The driver, over its external components *)

(** How a piece of the loop body ends: with a value, or in one of the three
    ways of leaving the body early. *)
Inductive signal (A : Type) :=
| Val (a : A)
| Continue
| Break
| Raise (e : exn).
Arguments Val {A} a.
Arguments Continue {A}.
Arguments Break {A}.
Arguments Raise {A} e.

(** The wrapped components, as functions of their arguments.  Images and
    meshes are opaque; the driver only reads an image's shape. *)
Record Externals (image mesh : Type) := {
  shape : image -> Z * Z;                        (* (height, width) *)
  imread : string -> option image;               (* cv2.imread *)
  detect_hand_bbox : image -> detect_output;
  regress : image -> list hand_bbox -> list pred_output;
  extract_mesh_from_output : list pred_output -> list mesh;
  visualize : image -> list mesh -> list hand_bbox -> image;
  astype_uint8 : image -> image
}.
Arguments shape {image mesh} _ _.
Arguments imread {image mesh} _ _.
Arguments detect_hand_bbox {image mesh} _ _.
Arguments regress {image mesh} _ _ _.
Arguments extract_mesh_from_output {image mesh} _ _.
Arguments visualize {image mesh} _ _ _ _.
Arguments astype_uint8 {image mesh} _ _.

Section Driver.

Local Open Scope list_scope.

Context {image mesh : Type}.
Variable ext : Externals image mesh.

(** A capture object: what its n-th [read()] yields. *)
Definition capture := nat -> option image.

(** The pair [(input_type, input_data)] returned by [setup_input]. *)
Inductive input :=
| image_dir (paths : list string)
| bbox_dir (items : list bbox_item)
| video (cap : capture)
| webcam (cap : option capture)        (* the code tests it against None *)
| other_input (input_type : string).

(** Every call that leaves the driver, in the order it is made. *)
Inductive event :=
| Print (s : string)
| SetupInput
| CreateWindow                                   (* NonBlockVisualizer() *)
| Imread (path : string)
| CapRead (n : nat)
| MakeSubdir (path : string)
| Imwrite (path : string) (img : image)
| DetectHandBbox (img : image)
| SaveInfoToJson (path : string) (body : list bbox) (hand : list hand_bbox)
| Regress (img : image) (hand : list hand_bbox) (add_margin : bool)
| AddGeometry (pts : list point3) (cols : list (Z * Z * Z))
| UpdateGeometry (pts : list point3) (cols : list (Z * Z * Z))
| PollEvents
| UpdateRenderer
| Sleep (wait_time : Z)
| ExtractMesh (preds : list pred_output)
| Visualize (img : image) (meshes : list mesh) (hand : list hand_bbox)
| ImShow (img : image)
| SaveResImg (dir : string) (path : string) (img : image)
| SavePredToPkl (demo_type : string) (path : string) (body : list bbox)
    (hand : list hand_bbox) (preds : list pred_output)
| GenVideoOut (dir : option string) (seq : string)
| Release
| DestroyAllWindows
| NewHandBboxDetector
| NewHandMocap
| NewVisualizer (screen_free : bool) (renderer : string).

(** The locals of [run_hand_mocap] that are live across iterations, the read
    position of the capture and the visualizer's private flag.  A local that
    has not been assigned yet is [None]. *)
Record state := {
  cur_frame : Z;
  video_frame : Z;
  reads : nat;
  image_path : option string;
  hand_bbox_list : option (list hand_bbox);
  body_bbox_list : option (list bbox);
  vis_initialized : bool
}.

Definition with_cur_frame (v : Z) (s : state) : state :=
  {| cur_frame := v; video_frame := video_frame s; reads := reads s;
     image_path := image_path s; hand_bbox_list := hand_bbox_list s;
     body_bbox_list := body_bbox_list s; vis_initialized := vis_initialized s |}.

Definition with_video_frame (v : Z) (s : state) : state :=
  {| cur_frame := cur_frame s; video_frame := v; reads := reads s;
     image_path := image_path s; hand_bbox_list := hand_bbox_list s;
     body_bbox_list := body_bbox_list s; vis_initialized := vis_initialized s |}.

Definition with_reads (v : nat) (s : state) : state :=
  {| cur_frame := cur_frame s; video_frame := video_frame s; reads := v;
     image_path := image_path s; hand_bbox_list := hand_bbox_list s;
     body_bbox_list := body_bbox_list s; vis_initialized := vis_initialized s |}.

Definition with_image_path (v : string) (s : state) : state :=
  {| cur_frame := cur_frame s; video_frame := video_frame s; reads := reads s;
     image_path := Some v; hand_bbox_list := hand_bbox_list s;
     body_bbox_list := body_bbox_list s; vis_initialized := vis_initialized s |}.

Definition with_hand_bbox_list (v : list hand_bbox) (s : state) : state :=
  {| cur_frame := cur_frame s; video_frame := video_frame s; reads := reads s;
     image_path := image_path s; hand_bbox_list := Some v;
     body_bbox_list := body_bbox_list s; vis_initialized := vis_initialized s |}.

Definition with_body_bbox_list (v : list bbox) (s : state) : state :=
  {| cur_frame := cur_frame s; video_frame := video_frame s; reads := reads s;
     image_path := image_path s; hand_bbox_list := hand_bbox_list s;
     body_bbox_list := Some v; vis_initialized := vis_initialized s |}.

Definition with_vis_initialized (v : bool) (s : state) : state :=
  {| cur_frame := cur_frame s; video_frame := video_frame s; reads := reads s;
     image_path := image_path s; hand_bbox_list := hand_bbox_list s;
     body_bbox_list := body_bbox_list s; vis_initialized := v |}.

(** *** The monad of the loop body

    A computation transforms the state, appends to the trace and ends in a
    [signal]. *)

Definition M (A : Type) : Type := state -> signal A * state * list event.

Definition ret {A : Type} (a : A) : M A := fun s => (Val a, s, []).

Definition bind {A B : Type} (m : M A) (f : A -> M B) : M B :=
  fun s =>
    match m s with
    | (Val a, s1, t1) =>
        let '(r, s2, t2) := f a s1 in (r, s2, t1 ++ t2)
    | (Continue, s1, t1) => (Continue, s1, t1)
    | (Break, s1, t1) => (Break, s1, t1)
    | (Raise e, s1, t1) => (Raise e, s1, t1)
    end.

(** What an early exit of the first half of a [bind] becomes for the whole. *)
Definition early {A : Type} (B : Type) (sg : signal A) : option (signal B) :=
  match sg with
  | Val _ => None
  | Continue => Some Continue
  | Break => Some Break
  | Raise e => Some (Raise e)
  end.

Notation "x <- m ;; k" := (bind m (fun x => k))
  (at level 61, m at next level, right associativity).
Notation "m ;;; k" := (bind m (fun _ => k))
  (at level 61, right associativity).

Definition emit (e : event) : M unit := fun s => (Val tt, s, [e]).
Definition get_state : M state := fun s => (Val s, s, []).
Definition modify (f : state -> state) : M unit := fun s => (Val tt, f s, []).
Definition continue_ {A : Type} : M A := fun s => (Continue, s, []).
Definition break_ {A : Type} : M A := fun s => (Break, s, []).
Definition raise {A : Type} (e : exn) : M A := fun s => (Raise e, s, []).

(** Reading a local that may still be unbound. *)
Definition read_local {A : Type} (proj : state -> option A) (name : string) : M A :=
  fun s =>
    match proj s with
    | Some v => (Val v, s, [])
    | None => (Raise (UnboundLocalError name), s, [])
    end.

Definition assert_ (b : bool) (msg : string) : M unit :=
  if b then ret tt else raise (AssertionError msg).

Definition subscript {A : Type} (l : list A) (i : Z) : M A :=
  match py_index l i with
  | Some v => ret v
  | None => raise IndexError
  end.

Definition len {A : Type} (l : list A) : Z := Z.of_nat (List.length l).

Variable args : Args.
Variable inp : input.

(** *** Lines 40-53: [NonBlockVisualizer.update_renderer] *)
Definition update_renderer (pcd_points : list point3) (pcd_colors : list (Z * Z * Z))
    (wait_time : Z) : M unit :=
  s <- get_state ;;
  (if negb (vis_initialized s)
   then modify (with_vis_initialized true) ;;; emit (AddGeometry pcd_points pcd_colors)
   else emit (UpdateGeometry pcd_points pcd_colors)) ;;;
  emit PollEvents ;;;
  emit UpdateRenderer ;;;
  (if wait_time >? 0 then emit (Sleep wait_time) else ret tt).

(** *** Lines 86-133: load data *)
Definition read_capture (cap : capture) : M (option image) :=
  s <- get_state ;;
  emit (CapRead (reads s)) ;;;
  modify (with_reads (S (reads s))) ;;;
  ret (cap (reads s)).

Definition frames_path (name : string) : M string :=
  match out_dir args with
  | Some d => ret (path_join (path_join d "frames") name)
  | None => raise TypeError
  end.

(** The body shared by the 'video' and 'webcam' branches; they differ in the
    file name of the saved frame. *)
Definition load_stream (cap : capture) (prefix : string) : M (option image * bool) :=
  img_original_bgr <- read_capture cap ;;
  s <- get_state ;;
  if video_frame s <? cur_frame s then
    modify (with_video_frame (video_frame s + 1)) ;;; continue_
  else
    path <- frames_path (prefix ++ format_05d (cur_frame s) ++ ".jpg")%string ;;
    modify (with_image_path path) ;;;
    match img_original_bgr with
    | Some img =>
        modify (with_video_frame (video_frame s + 1)) ;;;
        (if save_frame args
         then emit (MakeSubdir path) ;;; emit (Imwrite path img)
         else ret tt)
    | None => ret tt
    end ;;;
    ret (img_original_bgr, false).

(** Returns [(img_original_bgr, load_bbox)]. *)
Definition load_data : M (option image * bool) :=
  match inp with
  | image_dir input_data =>
      s <- get_state ;;
      if cur_frame s <? len input_data then
        path <- subscript input_data (cur_frame s) ;;
        modify (with_image_path path) ;;;
        emit (Imread path) ;;;
        ret (imread ext path, false)
      else ret (None, false)
  | bbox_dir input_data =>
      s <- get_state ;;
      if cur_frame s <? len input_data then
        emit (Print "Use pre-computed bounding boxes") ;;;
        item <- subscript input_data (cur_frame s) ;;
        modify (with_image_path (item_image_path item)) ;;;
        modify (with_hand_bbox_list (item_hand_bbox_list item)) ;;;
        modify (with_body_bbox_list (item_body_bbox_list item)) ;;;
        emit (Imread (item_image_path item)) ;;;
        ret (imread ext (item_image_path item), true)
      else ret (None, false)
  | video cap => load_stream cap ""
  | webcam (Some cap) => load_stream cap "scene_"
  | webcam None => raise AttributeError
  | other_input _ => raise (AssertionError "Unknown input_type")
  end.

(** *** Lines 135-138: advance the frame counter, leave the loop *)
Definition separator : string := "--------------------------------------".

Definition frame_gate (img_original_bgr : option image) : M image :=
  s <- get_state ;;
  modify (with_cur_frame (cur_frame s + 1)) ;;;
  match img_original_bgr with
  | None => break_
  | Some img =>
      if cur_frame s + 1 >? end_frame args then break_
      else emit (Print separator) ;;; ret img
  end.

(** *** Lines 140-155: bbox detection *)
Definition bbox_detection (img : image) (load_bbox : bool) : M unit :=
  if load_bbox then ret tt
  else if String.eqb (crop_type args) "hand_crop" then
    let '(img_h, img_w) := shape ext img in
    modify (with_hand_bbox_list [ [("right_hand", Some [0; 0; img_w; img_h])] ])
  else
    assert_ (String.eqb (crop_type args) "no_crop") "" ;;;
    emit (DetectHandBbox img) ;;;
    let detect_output := detect_hand_bbox ext img in
    modify (with_body_bbox_list (det_body_bbox_list detect_output)) ;;;
    modify (with_hand_bbox_list (det_hand_bbox_list detect_output)).

(** *** Lines 157-159: save the boxes to a json file *)
Definition save_bbox : M unit :=
  if save_bbox_output args then
    path <- read_local image_path "image_path" ;;
    body <- read_local body_bbox_list "body_bbox_list" ;;
    hand <- read_local hand_bbox_list "hand_bbox_list" ;;
    emit (SaveInfoToJson path body hand)
  else ret tt.

(** *** Lines 161-163: no hand, next frame *)
Definition no_hand_check : M (list hand_bbox) :=
  hand <- read_local hand_bbox_list "hand_bbox_list" ;;
  if len hand <? 1 then
    path <- read_local image_path "image_path" ;;
    emit (Print ("No hand deteced: " ++ path)%string) ;;;
    continue_
  else ret hand.

(** *** Lines 165-169: hand pose regression and the two length assertions *)
Definition regression (img : image) (hand : list hand_bbox) : M (list pred_output) :=
  emit (Regress img hand true) ;;;
  let pred_output_list := regress ext img hand in
  hand' <- read_local hand_bbox_list "hand_bbox_list" ;;
  body <- read_local body_bbox_list "body_bbox_list" ;;
  assert_ (len hand' =? len body) "" ;;;
  assert_ (len body =? len pred_output_list) "" ;;;
  ret pred_output_list.

(** *** Lines 175-182: the point cloud of the joints *)

(** Line 175: the two subscripts of the first prediction.  A value of None
    under 'pred_joints_smpl' is bound to [joints] like any other. *)
Definition first_left_joints (pred_output_list : list pred_output)
  : M (option (list point3)) :=
  first <- subscript pred_output_list 0 ;;
  match left_hand first with
  | Missing => raise (KeyError "left_hand")
  | PyNone => raise TypeError
  | Bound h =>
      match pred_joints_smpl h with
      | Missing => raise (KeyError "pred_joints_smpl")
      | PyNone => ret None
      | Bound joints => ret (Some joints)
      end
  end.

(** Line 176: [open3d.utility.Vector3dVector] takes an array of points; Open3D
    refuses None with a RuntimeError. *)
Definition Vector3dVector (joints : option (list point3)) : M (list point3) :=
  match joints with
  | Some points => ret points
  | None => raise RuntimeError
  end.

Definition point_cloud (pred_output_list : list pred_output) : M unit :=
  joints <- first_left_joints pred_output_list ;;
  pcd_points <- Vector3dVector joints ;;
  let pcd_points := transform flip_y pcd_points in
  update_renderer pcd_points colors 0.

(** *** Lines 186-210: render, show, save *)
Definition render_and_save (img : image) (hand : list hand_bbox)
    (pred_output_list : list pred_output) : M unit :=
  emit (ExtractMesh pred_output_list) ;;;
  let pred_mesh_list := extract_mesh_from_output ext pred_output_list in
  emit (Visualize img pred_mesh_list hand) ;;;
  let res_img := visualize ext img pred_mesh_list hand in
  res_img <- (if negb (no_display args)
              then emit (ImShow (astype_uint8 ext res_img)) ;;; ret (astype_uint8 ext res_img)
              else ret res_img) ;;
  match out_dir args with
  | Some d =>
      path <- read_local image_path "image_path" ;;
      emit (SaveResImg d path res_img)
  | None => ret tt
  end ;;;
  (if save_pred_pkl args then
     path <- read_local image_path "image_path" ;;
     body <- read_local body_bbox_list "body_bbox_list" ;;
     emit (SavePredToPkl "hand" path body hand pred_output_list)
   else ret tt) ;;;
  path <- read_local image_path "image_path" ;;
  emit (Print ("Processed : " ++ path)%string).

(** *** Lines 85-159: from the next frame to its boxes *)
Definition select_frame_and_boxes : M image :=
  loaded <- load_data ;;
  img <- frame_gate (fst loaded) ;;
  bbox_detection img (snd loaded) ;;;
  save_bbox ;;;
  ret img.

(** *** Lines 161-210: from the boxes to the saved results *)
Definition process_frame (img : image) : M unit :=
  hand <- no_hand_check ;;
  pred_output_list <- regression img hand ;;
  point_cloud pred_output_list ;;;
  render_and_save img hand pred_output_list.

(** *** Lines 84-210: one pass through the body of [while True] *)
Definition loop_body : M unit :=
  img <- select_frame_and_boxes ;;
  process_frame img.

(** *** The loop

    One record per pass: the value of [cur_frame] on entry, the calls made and
    how the pass ended. *)
Inductive flow :=
| Completed            (* fell off the end of the body *)
| Continued            (* a [continue] statement *)
| Broke                (* the [break] statement *)
| Raised (e : exn).

Record iteration := {
  it_frame : Z;
  it_events : list event;
  it_flow : flow
}.

Inductive final :=
| Finished
| Crashed (e : exn)
| OutOfFuel.

Definition flow_of (sg : signal unit) : flow :=
  match sg with
  | Val _ => Completed
  | Continue => Continued
  | Break => Broke
  | Raise e => Raised e
  end.

(** [while True], unrolled [fuel] times at most; [run_hand_mocap] below gives
    it [passes_left] passes, which are always enough. *)
Fixpoint run_loop (fuel : nat) (s : state) : list iteration * state * final :=
  match fuel with
  | O => ([], s, OutOfFuel)
  | S fuel' =>
      let '(sg, s', t) := loop_body s in
      let pass := {| it_frame := cur_frame s; it_events := t; it_flow := flow_of sg |} in
      match sg with
      | Val _ | Continue =>
          let '(its, s'', fin) := run_loop fuel' s' in (pass :: its, s'', fin)
      | Break => ([pass], s', Finished)
      | Raise e => ([pass], s', Crashed e)
      end
  end.

Definition trace_of (its : list iteration) : list event :=
  flat_map it_events its.

(** Lines 81-82 and the unassigned locals. *)
Definition initial_state : state :=
  {| cur_frame := start_frame args; video_frame := 0; reads := 0%nat;
     image_path := None; hand_bbox_list := None; body_bbox_list := None;
     vis_initialized := false |}.

Definition is_stream (i : input) : bool :=
  match i with
  | video _ | webcam _ => true
  | _ => false
  end.

(** A bound on the passes the loop still makes from a state: for a capture,
    the reads skipped to reach [start_frame]; then the frames up to
    [end_frame]; then the pass that breaks. *)
Definition passes_left (s : state) : nat :=
  (if is_stream inp then Z.to_nat (Z.max 0 (cur_frame s - video_frame s)) else 0%nat)
  + Z.to_nat (Z.max 0 (end_frame args - cur_frame s)) + 1.

(** *** Lines 212-219: after the loop *)
Definition after_loop : list event :=
  (if negb (no_video_out args) && is_stream inp
   then [GenVideoOut (out_dir args) (seq_name args)] else [])
  ++ (match inp with
      | webcam (Some _) => [Release]
      | _ => []
      end)
  ++ [DestroyAllWindows].

(** *** Lines 58-219: [run_hand_mocap]

    The result is the trace before the loop, the passes of the loop, the trace
    after the loop (empty when an exception ended the run) and how it ended. *)
Record run := {
  run_setup : list event;
  run_passes : list iteration;
  run_after : list event;
  run_final : final
}.

Definition run_trace (r : run) : list event :=
  run_setup r ++ trace_of (run_passes r) ++ run_after r.

Definition run_hand_mocap : run :=
  match out_dir args with
  | None =>
      {| run_setup := [SetupInput; CreateWindow]; run_passes := []; run_after := [];
         run_final := Crashed (AssertionError "Please specify output dir to store the results") |}
  | Some _ =>
      let '(its, _, fin) := run_loop (passes_left initial_state) initial_state in
      {| run_setup := [SetupInput; CreateWindow]; run_passes := its;
         run_after := match fin with Finished => after_loop | _ => [] end;
         run_final := fin |}
  end.

(** *** Lines 222-243: [main] *)
Definition main (cuda_is_available : bool) : run :=
  if cuda_is_available then
    let screen_free := String.eqb (renderer_type args) "pytorch3d"
                       || String.eqb (renderer_type args) "opendr" in
    let r := run_hand_mocap in
    {| run_setup := [NewHandBboxDetector; NewHandMocap;
                     NewVisualizer screen_free (renderer_type args)] ++ run_setup r;
       run_passes := run_passes r; run_after := run_after r; run_final := run_final r |}
  else
    {| run_setup := []; run_passes := []; run_after := [];
       run_final := Crashed (AssertionError "Current version only supports GPU") |}.

(** A pass after which the loop goes round again. *)
Definition goes_on (p : iteration) : Prop :=
  it_flow p = Completed \/ it_flow p = Continued.

Definition completed (p : iteration) : bool :=
  match it_flow p with
  | Completed => true
  | _ => false
  end.

(** A pass that took its frame for processing (it printed line 138). *)
Definition processed (p : iteration) : Prop :=
  In (Print separator) (it_events p).

(** *** The order of the steps, as the description of the loop words it

    Select a frame, get its boxes, regress, visualize, then persist the
    outputs: result image, pkl, JSON and frame JPEG.  Printing is no step. *)
Inductive step :=
| StepSelect
| StepBoxes
| StepRegress
| StepVisualize
| StepPersist.

Definition step_rank (st : step) : nat :=
  match st with
  | StepSelect => 0
  | StepBoxes => 1
  | StepRegress => 2
  | StepVisualize => 3
  | StepPersist => 4
  end.

Definition claimed_step (e : event) : option step :=
  match e with
  | Imread _ | CapRead _ => Some StepSelect
  | DetectHandBbox _ => Some StepBoxes
  | Regress _ _ _ => Some StepRegress
  | AddGeometry _ _ | UpdateGeometry _ _ | PollEvents | UpdateRenderer | Sleep _
  | ExtractMesh _ | Visualize _ _ _ | ImShow _ => Some StepVisualize
  | SaveResImg _ _ _ | SavePredToPkl _ _ _ _ _ | SaveInfoToJson _ _ _
  | MakeSubdir _ | Imwrite _ _ => Some StepPersist
  | _ => None
  end.

Fixpoint claimed_ranks (t : list event) : list nat :=
  match t with
  | [] => []
  | e :: t' =>
      match claimed_step e with
      | Some st => step_rank st :: claimed_ranks t'
      | None => claimed_ranks t'
      end
  end.

Fixpoint nondecreasing (l : list nat) : bool :=
  match l with
  | a :: ((b :: _) as l') => (a <=? b)%nat && nondecreasing l'
  | _ => true
  end.

(** The steps of one pass come in the claimed order, and regression and
    visualization are among them. *)
Definition in_claimed_order (t : list event) : bool :=
  nondecreasing (claimed_ranks t)
  && existsb (Nat.eqb (step_rank StepRegress)) (claimed_ranks t)
  && existsb (Nat.eqb (step_rank StepVisualize)) (claimed_ranks t).

(** *** The calls of a pass that runs to the end of the body, in order *)

Definition is_bbox_dir (i : input) : bool :=
  match i with
  | bbox_dir _ => true
  | _ => false
  end.

(** Selecting the frame: one of the four sources. *)
Definition selection_events (s : state) (path : string) (img : image) : list event :=
  match inp with
  | image_dir _ => [Imread path]
  | bbox_dir _ => [Print "Use pre-computed bounding boxes"; Imread path]
  | video _ | webcam _ =>
      CapRead (reads s)
        :: (if save_frame args then [MakeSubdir path; Imwrite path img] else [])
  | other_input _ => []
  end.

(** The boxes: loaded with the frame, made up from its shape, or detected. *)
Definition box_events (img : image) : list event :=
  if is_bbox_dir inp then []
  else if String.eqb (crop_type args) "hand_crop" then []
  else [DetectHandBbox img].

Definition json_events (path : string) (body : list bbox) (hand : list hand_bbox)
    : list event :=
  if save_bbox_output args then [SaveInfoToJson path body hand] else [].

(** Regression, point cloud, rendering, then the saved results. *)
Definition frame_events (initialized : bool) (img : image) (hand : list hand_bbox)
    (body : list bbox) (path : string) (joints : list point3) : list event :=
  let preds := regress ext img hand in
  let meshes := extract_mesh_from_output ext preds in
  let res := visualize ext img meshes hand in
  let shown := if negb (no_display args) then astype_uint8 ext res else res in
  [Regress img hand true]
  ++ [ (if initialized
        then UpdateGeometry (transform flip_y joints) colors
        else AddGeometry (transform flip_y joints) colors);
       PollEvents; UpdateRenderer ]
  ++ [ExtractMesh preds; Visualize img meshes hand]
  ++ (if negb (no_display args) then [ImShow shown] else [])
  ++ match out_dir args with
     | Some d => [SaveResImg d path shown]
     | None => []
     end
  ++ (if save_pred_pkl args then [SavePredToPkl "hand" path body hand preds] else [])
  ++ [Print ("Processed : " ++ path)%string].

(** *** Classes of events, to state where a call can occur *)

(** The line printed when a frame is taken for processing (line 138). *)
Definition marks_frame (e : event) : bool :=
  match e with
  | Print s => String.eqb s separator
  | _ => false
  end.

(** Calls made while the next frame is selected (lines 85-133). *)
Definition selection_event (e : event) : bool :=
  match e with
  | Print s => negb (String.eqb s separator)
  | Imread _ | CapRead _ | MakeSubdir _ | Imwrite _ _ => true
  | _ => false
  end.

(** Calls made up to the boxes of the frame (lines 85-159). *)
Definition early_event (e : event) : bool :=
  match e with
  | Print _ | Imread _ | CapRead _ | MakeSubdir _ | Imwrite _ _
  | DetectHandBbox _ | SaveInfoToJson _ _ _ => true
  | _ => false
  end.

(** Regression, the point cloud, the rendering and the saved results
    (lines 165-208). *)
Definition processing_event (e : event) : bool :=
  match e with
  | Regress _ _ _
  | AddGeometry _ _ | UpdateGeometry _ _ | PollEvents | UpdateRenderer | Sleep _
  | ExtractMesh _ | Visualize _ _ _ | ImShow _
  | SaveResImg _ _ _ | SavePredToPkl _ _ _ _ _ => true
  | _ => false
  end.

(** Calls made from the emptiness check on (lines 161-210). *)
Definition late_event (e : event) : bool :=
  match e with
  | Print s => negb (String.eqb s separator)
  | e' => processing_event e'
  end.

(** *** Further notions for the properties of a whole run *)

(** The file a saved frame goes to (lines 112 and 126). *)
Definition frame_file (d prefix : string) (f : Z) : string :=
  path_join (path_join d "frames") (prefix ++ format_05d f ++ ".jpg")%string.

(** The files written by [cv2.imwrite], in order. *)
Definition written_frames (t : list event) : list string :=
  flat_map (fun e => match e with Imwrite path _ => [path] | _ => [] end) t.

(** The calls that hand the point cloud to the Open3D window. *)
Definition is_geometry (e : event) : bool :=
  match e with
  | AddGeometry _ _ | UpdateGeometry _ _ => true
  | _ => false
  end.

Definition is_update (e : event) : bool :=
  match e with
  | UpdateGeometry _ _ => true
  | _ => false
  end.

Definition geometry_of (t : list event) : list event := filter is_geometry t.

(** The prefix of the file name of a saved frame. *)
Definition frame_prefix (i : input) : string :=
  match i with
  | webcam _ => "scene_"
  | _ => ""
  end.

(** [len(input_data)] for the two directory inputs. *)
Definition input_length (i : input) : Z :=
  match i with
  | image_dir input_data => len input_data
  | bbox_dir input_data => len input_data
  | _ => 0
  end.

(** The two directory inputs. *)
Definition is_directory (i : input) : bool :=
  match i with
  | image_dir _ | bbox_dir _ => true
  | _ => false
  end.

(** [first] is [pred_output_list[0]] for a call of [regress] in the trace. *)
Definition first_prediction (t : list event) (first : pred_output) : Prop :=
  exists img hand rest,
    In (Regress img hand true) t /\ regress ext img hand = first :: rest.

(** The exceptions that can end a run, each with what it takes. *)
Definition possible_exception (e : exn) : Prop :=
  let t := run_trace run_hand_mocap in
  match e with
  | AssertionError msg =>
      (msg = "Please specify output dir to store the results" /\ out_dir args = None)
      \/ (msg = "Unknown input_type" /\ exists input_type, inp = other_input input_type)
      \/ (msg = "" /\ crop_type args <> "hand_crop" /\ crop_type args <> "no_crop"
          /\ is_bbox_dir inp = false)
      \/ (msg = "" /\ exists img hand, In (Regress img hand true) t)
  | UnboundLocalError name =>
      name = "body_bbox_list" /\ crop_type args = "hand_crop" /\ is_bbox_dir inp = false
  | IndexError =>
      is_directory inp = true /\ start_frame args < - input_length inp
      /\ forall img hand add_margin, ~ In (Regress img hand add_margin) t
  | KeyError key =>
      exists first,
        first_prediction t first
        /\ ((key = "left_hand" /\ left_hand first = Missing)
            \/ (key = "pred_joints_smpl"
                /\ exists h, left_hand first = Bound h /\ pred_joints_smpl h = Missing))
  | TypeError => exists first, first_prediction t first /\ left_hand first = PyNone
  | RuntimeError =>
      exists first h,
        first_prediction t first
        /\ left_hand first = Bound h /\ pred_joints_smpl h = PyNone
  | AttributeError => inp = webcam None
  end.

(** The boxes a frame is regressed with, by crop type, when they did not come
    with the frame. *)
Definition boxes_of_frame (img : image) (hand : list hand_bbox) : Prop :=
  (crop_type args = "hand_crop"
   /\ hand = [ [("right_hand", Some [0; 0; snd (shape ext img); fst (shape ext img)])] ])
  \/ (crop_type args = "no_crop"
      /\ hand = det_hand_bbox_list (detect_hand_bbox ext img)).

(** Where the frame of a pass and its boxes come from. *)
Definition frame_source (i : input) (s : state) (img : image)
    (hand : list hand_bbox) : Prop :=
  match i with
  | image_dir input_data =>
      exists path,
        py_index input_data (cur_frame s) = Some path
        /\ imread ext path = Some img /\ boxes_of_frame img hand
  | bbox_dir input_data =>
      exists item,
        py_index input_data (cur_frame s) = Some item
        /\ imread ext (item_image_path item) = Some img
        /\ hand = item_hand_bbox_list item
  | video cap | webcam (Some cap) =>
      cap (reads s) = Some img /\ (video_frame s <? cur_frame s) = false
      /\ boxes_of_frame img hand
  | _ => False
  end.

(** The state at the head of the loop over a capture: the reads made so far
    are counted by [video_frame], which has not overtaken [cur_frame], and
    [cur_frame] is still [start_frame] while reads are skipped. *)
Definition capture_in_step (s : state) : Prop :=
  Z.of_nat (reads s) = video_frame s /\ video_frame s <= cur_frame s
  /\ (video_frame s < cur_frame s -> cur_frame s = start_frame args).

(** The read of a capture that delivers the frame with number [f]: the reads
    before a positive [start_frame] are dropped, and a negative [start_frame]
    numbers the first read. *)
Definition read_of_frame (f : Z) : nat := Z.to_nat (f - Z.min 0 (start_frame args)).

(** The input delivers an image for the frame with number [f]. *)
Definition frame_loads (f : Z) : Prop :=
  match inp with
  | image_dir input_data =>
      exists path img,
        py_index input_data f = Some path /\ imread ext path = Some img
  | bbox_dir input_data =>
      exists item img,
        py_index input_data f = Some item
        /\ imread ext (item_image_path item) = Some img
  | video cap | webcam (Some cap) => exists img, cap (read_of_frame f) = Some img
  | webcam None | other_input _ => False
  end.

(** The state at the head of the loop, for any [start_frame]: over a capture
    the reads made so far are counted by [video_frame], and either reads are
    still dropped to reach [start_frame], or the next read is the one of
    [cur_frame]. *)
Definition in_step (s : state) : Prop :=
  is_stream inp = true ->
  Z.of_nat (reads s) = video_frame s
  /\ ((video_frame s < cur_frame s /\ cur_frame s = start_frame args)
      \/ cur_frame s = video_frame s + Z.min 0 (start_frame args)).

End Driver.

(** ** Sample inputs

    A concrete instance of the external components, used to run the driver on
    explicit inputs: an image is its shape and a serial number. *)
Module Sample.

Definition image : Type := (Z * Z * nat)%type.
Definition mesh : Type := nat.

Definition joints : list point3 := [((1 # 2), (3 # 4), 5); (0, -(2), (1 # 3))]%Q.

Definition left_only : pred_output :=
  {| left_hand := Bound {| pred_joints_smpl := Bound joints |}; right_hand := PyNone |}.


Definition one_left_box : hand_bbox := [("left_hand", Some [5; 6; 70; 80]); ("right_hand", None)].

(** Every file reads as a 480x640 image, except "bad.jpg", which does not
    decode; the detector finds one left hand and one body; the regressor
    returns one left-hand prediction per box. *)
Definition ext : Externals image mesh :=
  {| shape := fun img => fst img;
     imread := fun path =>
       if String.eqb path "bad.jpg" then None else Some (480, 640, String.length path);
     detect_hand_bbox := fun _ =>
       {| det_body_bbox_list := [[1; 2; 300; 400]]; det_hand_bbox_list := [one_left_box] |};
     regress := fun _ hand => map (fun _ => left_only) hand;
     extract_mesh_from_output := fun preds => map (fun _ => 0%nat) preds;
     visualize := fun img _ _ => img;
     astype_uint8 := fun img => img |}.

(** A detector that finds nothing, and one that reports two bodies for one hand. *)
Definition ext_no_hand : Externals image mesh :=
  {| shape := shape ext; imread := imread ext;
     detect_hand_bbox := fun _ => {| det_body_bbox_list := []; det_hand_bbox_list := [] |};
     regress := regress ext; extract_mesh_from_output := extract_mesh_from_output ext;
     visualize := visualize ext; astype_uint8 := astype_uint8 ext |}.

Definition ext_two_bodies : Externals image mesh :=
  {| shape := shape ext; imread := imread ext;
     detect_hand_bbox := fun _ =>
       {| det_body_bbox_list := [[1; 2; 300; 400]; [5; 5; 9; 9]];
          det_hand_bbox_list := [one_left_box] |};
     regress := regress ext; extract_mesh_from_output := extract_mesh_from_output ext;
     visualize := visualize ext; astype_uint8 := astype_uint8 ext |}.

Definition args : Args :=
  {| out_dir := Some "out"; seq_name := "seq"; start_frame := 0; end_frame := 2;
     save_frame := true; crop_type := "no_crop"; save_bbox_output := true;
     no_display := false; save_pred_pkl := true; no_video_out := false;
     renderer_type := "opengl" |}.

Definition with_crop (c : string) (a : Args) : Args :=
  {| out_dir := out_dir a; seq_name := seq_name a; start_frame := start_frame a;
     end_frame := end_frame a; save_frame := save_frame a; crop_type := c;
     save_bbox_output := save_bbox_output a; no_display := no_display a;
     save_pred_pkl := save_pred_pkl a; no_video_out := no_video_out a;
     renderer_type := renderer_type a |}.

Definition with_save_bbox (b : bool) (a : Args) : Args :=
  {| out_dir := out_dir a; seq_name := seq_name a; start_frame := start_frame a;
     end_frame := end_frame a; save_frame := save_frame a; crop_type := crop_type a;
     save_bbox_output := b; no_display := no_display a;
     save_pred_pkl := save_pred_pkl a; no_video_out := no_video_out a;
     renderer_type := renderer_type a |}.

Definition three_images : input := image_dir (image := image) ["a.jpg"; "b.jpg"; "c.jpg"].
Definition bad_then_good : input := image_dir (image := image) ["bad.jpg"; "b.jpg"].

(** A camera that always delivers a 4x6 frame numbered by the read. *)
Definition camera : capture (image := image) := fun n => Some (4, 6, n).

Definition two_boxes : input :=
  bbox_dir (image := image)
    [ {| item_image_path := "a.jpg";
         item_hand_bbox_list := [one_left_box; one_left_box];
         item_body_bbox_list := [[1; 2; 300; 400]; [5; 5; 9; 9]] |} ].

(** The first pass of a run (a dummy when the run has none). *)
Definition first_pass (r : run (image := image) (mesh := mesh)) : iteration :=
  hd {| it_frame := 0; it_events := []; it_flow := Broke |} (run_passes r).

Definition hand_crop_args : Args := with_crop "hand_crop" (with_save_bbox false args).

Definition with_start_frame (f : Z) (a : Args) : Args :=
  {| out_dir := out_dir a; seq_name := seq_name a; start_frame := f;
     end_frame := end_frame a; save_frame := save_frame a; crop_type := crop_type a;
     save_bbox_output := save_bbox_output a; no_display := no_display a;
     save_pred_pkl := save_pred_pkl a; no_video_out := no_video_out a;
     renderer_type := renderer_type a |}.

(** The second pass of a run (a dummy when the run has fewer). *)
Definition second_pass (r : run (image := image) (mesh := mesh)) : iteration :=
  nth 1 (run_passes r) {| it_frame := 0; it_events := []; it_flow := Broke |}.

End Sample.

(** ** Properties of the driver *)

(** *** Reasoning about [bind] *)

Section BindLaws.

Local Open Scope list_scope.

Context {image mesh : Type}.

Lemma bind_inv (A B : Type) (m : @M image mesh A) (f : A -> M B) s sg s' t :
  bind m f s = (sg, s', t) ->
  (exists a s1 t1 t2,
      m s = (Val a, s1, t1) /\ f a s1 = (sg, s', t2) /\ t = t1 ++ t2)
  \/ (exists sg0, m s = (sg0, s', t) /\ early B sg0 = Some sg).
Proof.
  unfold bind. intros H.
  destruct (m s) as [[[a | | | e] s1] t1] eqn:Em.
  - destruct (f a s1) as [[r s2] t2] eqn:Ef.
    left. exists a, s1, t1, t2. inversion H; subst; auto.
  - right. exists Continue. inversion H; subst; auto.
  - right. exists Break. inversion H; subst; auto.
  - right. exists (Raise e). inversion H; subst; auto.
Qed.

Lemma bind_val (A B : Type) (m : @M image mesh A) (f : A -> M B) s a s1 t1 :
  m s = (Val a, s1, t1) ->
  bind m f s = (let '(r, s2, t2) := f a s1 in (r, s2, t1 ++ t2)).
Proof. unfold bind. intros ->. reflexivity. Qed.

Lemma bind_early (A B : Type) (m : @M image mesh A) (f : A -> M B) s sg0 sg s1 t1 :
  m s = (sg0, s1, t1) -> early B sg0 = Some sg ->
  bind m f s = (sg, s1, t1).
Proof.
  unfold bind. intros -> E. destruct sg0; simpl in E; inversion E; reflexivity.
Qed.

End BindLaws.

(** Splits a hypothesis about [bind m f s] into the run of [m] and of [f]. *)
Ltac bind_inv H :=
  let a := fresh "a" in
  let s1 := fresh "s" in
  let t1 := fresh "t" in
  let t2 := fresh "t" in
  let sg0 := fresh "sg" in
  let H1 := fresh "Hm" in
  let H2 := fresh "Hk" in
  let Ht := fresh "Ht" in
  apply bind_inv in H;
  destruct H as [(a & s1 & t1 & t2 & H1 & H2 & Ht) | (sg0 & H1 & H2)];
  cbv beta in *.

Ltac has_match x :=
  match x with
  | context [match _ with _ => _ end] => idtac
  end.

Ltac break_match_hyp H :=
  match type of H with
  | context [match ?x with _ => _ end] =>
      tryif has_match x then fail else destruct x eqn:?
  end.

Ltac run_in H :=
  cbv beta iota zeta delta
    [bind ret emit get_state modify continue_ break_ raise read_local assert_ subscript
     load_data load_stream read_capture frames_path frame_gate bbox_detection save_bbox
     no_hand_check regression first_left_joints Vector3dVector point_cloud
     update_renderer
     render_and_save fst snd] in H.

(** Enumerates the paths through the piece of code that [H] runs. *)
Ltac cases_of H :=
  run_in H; change (0 >? 0) with false in H; cbv beta iota zeta in H;
  repeat (break_match_hyp H; cbv beta iota zeta in H);
  inversion H; subst; clear H.

(** Brings together what the enumeration learnt about one local. *)
Ltac tidy :=
  simpl in *;
  repeat match goal with
    | E : ?x = ?x |- _ => clear E
    | E : Some _ = Some _ |- _ => inversion E; clear E; subst
    | E1 : ?x = Some ?a, E2 : ?x = Some ?b |- _ =>
        rewrite E1 in E2; inversion E2; clear E2; subst
    | E1 : ?x = Some _, E2 : ?x = None |- _ => rewrite E1 in E2; discriminate E2
    end.

(** Recomputes a piece of the body in the goal from the equations at hand. *)
Ltac recompute :=
  unfold box_events, json_events, selection_events, is_bbox_dir, load_data,
    load_stream, read_capture, frames_path, subscript, bind, get_state, modify,
    emit, ret, continue_, break_, raise;
  repeat (simpl; match goal with
                 | E : ?x = _ |- context [?x] => rewrite E
                 end);
  simpl.

Section Pieces.

Local Open Scope list_scope.

Context {image mesh : Type}.
Variable ext : Externals image mesh.
Variable args : Args.
Variable inp : input (image := image).

(** *** The flip of the Y axis *)



(** *** The point cloud (lines 175-182) *)


(** *** The pieces of the loop body, one by one *)

Lemma frame_gate_run (oimg : option image) (s : @state) :
  frame_gate (mesh := mesh) args oimg s =
    match oimg with
    | None => (Break, with_cur_frame (cur_frame s + 1) s, [])
    | Some img =>
        if cur_frame s + 1 >? end_frame args
        then (Break, with_cur_frame (cur_frame s + 1) s, [])
        else (Val img, with_cur_frame (cur_frame s + 1) s, [Print separator])
    end.
Proof.
  unfold frame_gate, bind, get_state, modify, break_, emit, ret.
  destruct oimg as [img |]; [destruct (cur_frame s + 1 >? end_frame args) |]; reflexivity.
Qed.

Lemma bbox_detection_run (img : image) (load_bbox : bool) (s : @state) :
  bbox_detection ext args img load_bbox s =
    if load_bbox then (Val tt, s, [])
    else if String.eqb (crop_type args) "hand_crop" then
      (Val tt,
       with_hand_bbox_list
         [ [("right_hand", Some [0; 0; snd (shape ext img); fst (shape ext img)])] ] s,
       [])
    else if String.eqb (crop_type args) "no_crop" then
      (Val tt,
       with_hand_bbox_list (det_hand_bbox_list (detect_hand_bbox ext img))
         (with_body_bbox_list (det_body_bbox_list (detect_hand_bbox ext img)) s),
       [DetectHandBbox img])
    else (Raise (AssertionError ""), s, []).
Proof.
  unfold bbox_detection, bind, modify, emit, ret, assert_, raise.
  destruct load_bbox; [reflexivity |].
  destruct (String.eqb (crop_type args) "hand_crop").
  - destruct (shape ext img); reflexivity.
  - destruct (String.eqb (crop_type args) "no_crop"); reflexivity.
Qed.

Lemma save_bbox_run (s : @state) :
  save_bbox (image := image) (mesh := mesh) args s =
    if save_bbox_output args then
      match image_path s, body_bbox_list s, hand_bbox_list s with
      | None, _, _ => (Raise (UnboundLocalError "image_path"), s, [])
      | Some _, None, _ => (Raise (UnboundLocalError "body_bbox_list"), s, [])
      | Some _, Some _, None => (Raise (UnboundLocalError "hand_bbox_list"), s, [])
      | Some path, Some body, Some hand => (Val tt, s, [SaveInfoToJson path body hand])
      end
    else (Val tt, s, []).
Proof.
  unfold save_bbox, bind, read_local, emit, ret.
  destruct (save_bbox_output args); [| reflexivity].
  destruct (image_path s), (body_bbox_list s), (hand_bbox_list s); reflexivity.
Qed.

(** What loading a frame leaves untouched. *)
Lemma load_data_frame s sg s1 t :
  load_data ext args inp s = (sg, s1, t) ->
  cur_frame s1 = cur_frame s /\ vis_initialized s1 = vis_initialized s
  /\ Forall (fun e => selection_event e = true) t.
Proof.
  intros H. cases_of H; simpl; repeat split; repeat constructor.
Qed.

(** What a loaded frame brings with it. *)
Lemma load_data_val s oimg load_bbox s1 t :
  load_data ext args inp s = (Val (oimg, load_bbox), s1, t) ->
  (forall img, oimg = Some img ->
     (exists path, image_path s1 = Some path) /\ load_bbox = is_bbox_dir inp)
  /\ (load_bbox = true ->
      exists hand body, hand_bbox_list s1 = Some hand /\ body_bbox_list s1 = Some body)
  /\ (load_bbox = false ->
      hand_bbox_list s1 = hand_bbox_list s /\ body_bbox_list s1 = body_bbox_list s)
  /\ (if is_stream inp
      then (video_frame s <? cur_frame s) = false
           /\ (oimg <> None -> video_frame s1 = video_frame s + 1)
      else video_frame s1 = video_frame s).
Proof.
  intros H. cases_of H; simpl; repeat split; intros; eauto; try discriminate;
    congruence.
Qed.

(** A capture read that is skipped to reach [start_frame]. *)
Lemma load_data_continue s s1 t :
  load_data ext args inp s = (Continue, s1, t) ->
  is_stream inp = true /\ video_frame s < cur_frame s
  /\ video_frame s1 = video_frame s + 1
  /\ hand_bbox_list s1 = hand_bbox_list s /\ body_bbox_list s1 = body_bbox_list s
  /\ t = [CapRead (reads s)].
Proof.
  intros H. cases_of H; simpl; repeat split; auto;
    match goal with E : (_ <? _) = true |- _ => apply Z.ltb_lt in E; exact E end.
Qed.

Lemma load_data_break s s1 t :
  load_data ext args inp s = (Break, s1, t) -> False.
Proof. intros H. cases_of H. Qed.

Lemma load_data_assertion s msg s1 t :
  load_data ext args inp s = (Raise (AssertionError msg), s1, t) ->
  exists input_type, inp = other_input input_type.
Proof. intros H. cases_of H. eauto. Qed.

(** A read of the capture that is not skipped. *)
Lemma load_stream_run (cap : capture) (prefix d : string) (s : @state) :
  out_dir args = Some d ->
  (video_frame s <? cur_frame s) = false ->
  let path := path_join (path_join d "frames")
                (prefix ++ format_05d (cur_frame s) ++ ".jpg")%string in
  load_stream (mesh := mesh) args cap prefix s =
    (Val (cap (reads s), false),
     match cap (reads s) with
     | Some _ =>
         with_video_frame (video_frame s + 1)
           (with_image_path path (with_reads (S (reads s)) s))
     | None => with_image_path path (with_reads (S (reads s)) s)
     end,
     CapRead (reads s)
       :: match cap (reads s) return list (@event image mesh) with
          | Some img => if save_frame args then [MakeSubdir path; Imwrite path img] else []
          | None => []
          end).
Proof.
  intros Hd Hv path.
  unfold load_stream, read_capture, frames_path, bind, get_state, emit, modify, ret.
  simpl. rewrite Hv, Hd.
  destruct (cap (reads s)); [destruct (save_frame args) |]; reflexivity.
Qed.

Lemma py_index_0 (A : Type) (l : list A) (x : A) :
  py_index l 0 = Some x -> exists rest, l = x :: rest.
Proof.
  unfold py_index. destruct l as [| y l]; simpl; [discriminate |].
  intros H. inversion H. eauto.
Qed.

(** The second half of the body only touches the visualizer's flag. *)
Lemma process_frame_state img s sg s1 t :
  process_frame ext args img s = (sg, s1, t) ->
  cur_frame s1 = cur_frame s /\ video_frame s1 = video_frame s
  /\ image_path s1 = image_path s /\ hand_bbox_list s1 = hand_bbox_list s
  /\ body_bbox_list s1 = body_bbox_list s
  /\ Forall (fun e => late_event e = true) t.
Proof.
  intros H. unfold process_frame in H.
  cases_of H; simpl; repeat split; try congruence; repeat constructor.
Qed.

Lemma len_nonempty (A : Type) (l : list A) : (len l <? 1) = false -> l <> [].
Proof. intros H E. subst l. discriminate H. Qed.

(** A pass that falls off the end of the body made exactly the calls of
    [frame_events] in its second half. *)
Lemma process_frame_completed img s u s1 t :
  process_frame ext args img s = (Val u, s1, t) ->
  exists hand body path first rest h joints,
    hand_bbox_list s = Some hand /\ body_bbox_list s = Some body
    /\ image_path s = Some path /\ hand <> []
    /\ regress ext img hand = first :: rest
    /\ left_hand first = Bound h /\ pred_joints_smpl h = Bound joints
    /\ len hand = len body /\ len body = len (regress ext img hand)
    /\ t = frame_events ext args (vis_initialized s) img hand body path joints.
Proof.
  intros H. unfold process_frame in H. cases_of H; tidy.
  all: match goal with
       | E : py_index _ 0 = Some ?p |- _ =>
           destruct (py_index_0 _ _ _ E) as [rest Erest]
       end.
  all: match goal with
       | E1 : hand_bbox_list _ = Some ?hand, E2 : body_bbox_list _ = Some ?body,
         E3 : image_path _ = Some ?path, E4 : left_hand ?first = Bound ?h,
         E5 : pred_joints_smpl ?h = Bound ?joints |- _ =>
           exists hand, body, path, first, rest, h, joints
       end.
  all: repeat match goal with
         | E : (_ =? _) = true |- _ => apply Z.eqb_eq in E
         | E : (len _ <? 1) = false |- _ => apply len_nonempty in E
         end.
  all: unfold frame_events;
       repeat match goal with
         | E : negb (no_display _) = _ |- _ => rewrite E
         | E : out_dir _ = _ |- _ => rewrite E
         | E : save_pred_pkl _ = _ |- _ => rewrite E
         end;
       match goal with
       | |- context [vis_initialized ?x] => destruct (vis_initialized x)
       end;
       try discriminate; simpl; repeat split; auto.
Qed.

(** The length assertions are the only ones of the second half. *)
Lemma process_frame_assertion img s msg s1 t :
  process_frame ext args img s = (Raise (AssertionError msg), s1, t) ->
  exists hand body,
    hand_bbox_list s = Some hand /\ body_bbox_list s = Some body
    /\ (len hand <> len body \/ len body <> len (regress ext img hand))
    /\ t = [Regress img hand true].
Proof.
  intros H. unfold process_frame in H. cases_of H; tidy.
  all: match goal with
       | E1 : hand_bbox_list _ = Some ?hand, E2 : body_bbox_list _ = Some ?body |- _ =>
           exists hand, body
       end.
  all: repeat match goal with
         | E : (_ =? _) = false |- _ => apply Z.eqb_neq in E
         end; auto.
Qed.

(** Once [visualize] has been called, the result image is saved, given an
    output directory and a bound [image_path]. *)
Lemma process_frame_visualize img s sg s1 t i m h d path :
  process_frame ext args img s = (sg, s1, t) ->
  In (Visualize i m h) t ->
  out_dir args = Some d -> image_path s = Some path ->
  exists r, In (SaveResImg d path r) t.
Proof.
  intros H Hin Hd Hp. unfold process_frame in H. cases_of H; tidy.
  all: try (exfalso; intuition discriminate).
  all: eexists; simpl; eauto 15.
Qed.


(** No hand: the frame is dropped at once (lines 161-163). *)
Lemma process_frame_no_hand img s path :
  hand_bbox_list s = Some [] -> image_path s = Some path ->
  process_frame ext args img s =
    (Continue, s, [Print ("No hand deteced: " ++ path)%string]).
Proof.
  intros Hh Hp. unfold process_frame, no_hand_check, bind, read_local, emit, continue_.
  rewrite Hh. simpl. rewrite Hp. reflexivity.
Qed.

(** [body_bbox_list] unbound: the first length assertion cannot even be
    evaluated (line 168). *)
Lemma process_frame_unbound_body img s b hand :
  hand_bbox_list s = Some (b :: hand) -> body_bbox_list s = None ->
  process_frame ext args img s =
    (Raise (UnboundLocalError "body_bbox_list"), s, [Regress img (b :: hand) true]).
Proof.
  intros Hh Hb.
  assert (Hlen : (len (b :: hand) <? 1) = false).
  { apply Z.ltb_ge. unfold len. simpl List.length. lia. }
  unfold process_frame, no_hand_check, regression, bind, read_local, emit, ret.
  rewrite Hh. cbv beta iota zeta. rewrite Hlen. cbv beta iota zeta.
  rewrite Hh, Hb. reflexivity.
Qed.

(** *** The first half of the body (lines 85-159) *)

(** A frame that reaches the emptiness check: where it came from, what was
    called on the way, and which locals are bound. *)
Lemma select_val s img s1 t :
  select_frame_and_boxes ext args inp s = (Val img, s1, t) ->
  exists path hand s0,
    load_data ext args inp s
      = (Val (Some img, is_bbox_dir inp), s0, selection_events args inp s path img)
    /\ cur_frame s1 = cur_frame s + 1 /\ cur_frame s + 1 <= end_frame args
    /\ vis_initialized s1 = vis_initialized s
    /\ video_frame s1 = video_frame s0
    /\ image_path s1 = Some path /\ hand_bbox_list s1 = Some hand
    /\ (save_bbox_output args = true -> body_bbox_list s1 <> None)
    /\ (if is_bbox_dir inp
        then hand_bbox_list s0 = Some hand /\ body_bbox_list s1 = body_bbox_list s0
        else if String.eqb (crop_type args) "hand_crop"
        then hand = [ [("right_hand",
                        Some [0; 0; snd (shape ext img); fst (shape ext img)])] ]
             /\ body_bbox_list s1 = body_bbox_list s
        else String.eqb (crop_type args) "no_crop" = true
             /\ hand = det_hand_bbox_list (detect_hand_bbox ext img)
             /\ body_bbox_list s1 = Some (det_body_bbox_list (detect_hand_bbox ext img)))
    /\ t = selection_events args inp s path img ++ [Print separator]
           ++ box_events args inp img
           ++ match body_bbox_list s1 with
              | Some body => json_events args path body hand
              | None => []
              end.
Proof.
  intros H. unfold select_frame_and_boxes in H.
  cases_of H; tidy.
  all: repeat match goal with
         | E : (_ >? _) = false |- _ => rewrite Z.gtb_ltb in E; apply Z.ltb_ge in E
         end.
  all: do 3 eexists.
  all: unfold box_events, json_events, selection_events, is_bbox_dir, load_data,
         load_stream, read_capture, frames_path, subscript, bind, get_state, modify,
         emit, ret.
  all: repeat (simpl; match goal with
                      | E : ?x = _ |- context [?x] => rewrite E
                      end).
  all: simpl; repeat split; try reflexivity; try lia; try congruence.
  all: match goal with
       | |- context [body_bbox_list ?x] => destruct (body_bbox_list x); reflexivity
       end.
Qed.

Lemma select_events s sg s1 t :
  select_frame_and_boxes ext args inp s = (sg, s1, t) ->
  Forall (fun e => early_event e = true) t.
Proof.
  intros H. unfold select_frame_and_boxes in H.
  cases_of H; simpl; repeat constructor.
Qed.

(** The only [continue] of the first half is the skipped read of a capture. *)
Lemma select_continue s s1 t :
  select_frame_and_boxes ext args inp s = (Continue, s1, t) ->
  load_data ext args inp s = (Continue, s1, t).
Proof.
  intros H. unfold select_frame_and_boxes in H.
  cases_of H; tidy; recompute; reflexivity.
Qed.

Lemma select_assertion s msg s1 t :
  select_frame_and_boxes ext args inp s = (Raise (AssertionError msg), s1, t) ->
  (exists input_type, inp = other_input input_type)
  \/ (String.eqb (crop_type args) "hand_crop" = false
      /\ String.eqb (crop_type args) "no_crop" = false
      /\ is_bbox_dir inp = false).
Proof.
  intros H. unfold select_frame_and_boxes in H.
  cases_of H; tidy; eauto.
Qed.

(** The separator line is printed exactly for the frames that pass line 136. *)
Lemma select_marked s sg s1 t :
  select_frame_and_boxes ext args inp s = (sg, s1, t) ->
  In (Print separator) t ->
  exists img s0 t0,
    load_data ext args inp s = (Val (Some img, is_bbox_dir inp), s0, t0)
    /\ cur_frame s + 1 <= end_frame args.
Proof.
  intros H Hin. unfold select_frame_and_boxes in H.
  cases_of H; tidy.
  all: try (exfalso; unfold separator in *; intuition discriminate).
  all: repeat match goal with
         | E : (_ >? _) = false |- _ => rewrite Z.gtb_ltb in E; apply Z.ltb_ge in E
         end.
  all: do 3 eexists; recompute; repeat split; try reflexivity; auto.
Qed.


(** *** One pass *)

Lemma loop_body_inv s sg s' t :
  loop_body ext args inp s = (sg, s', t) ->
  (exists img s1 t1 t2,
      select_frame_and_boxes ext args inp s = (Val img, s1, t1)
      /\ process_frame ext args img s1 = (sg, s', t2) /\ t = t1 ++ t2)
  \/ (exists sg0,
         select_frame_and_boxes ext args inp s = (sg0, s', t)
         /\ early unit sg0 = Some sg).
Proof. unfold loop_body. apply bind_inv. Qed.

Lemma loop_body_events s sg s' t :
  loop_body ext args inp s = (sg, s', t) ->
  Forall (fun e => early_event e || processing_event e = true) t.
Proof.
  intros H. apply loop_body_inv in H.
  destruct H as [(img & s1 & t1 & t2 & Hs & Hp & ->) | (sg0 & Hs & _)].
  - apply Forall_app. split.
    + apply select_events in Hs. eapply Forall_impl; [| exact Hs].
      intros e He. rewrite He. reflexivity.
    + apply process_frame_state in Hp. destruct Hp as (_ & _ & _ & _ & _ & Hp).
      eapply Forall_impl; [| exact Hp].
      intros e He. destruct e; simpl in *; auto; discriminate.
  - apply select_events in Hs. eapply Forall_impl; [| exact Hs].
    intros e He. rewrite He. reflexivity.
Qed.

(** A pass that does not leave the loop moves on: the frame counter never
    goes back, and the bound [passes_left] goes down. *)
Lemma loop_body_progress s sg s' t :
  loop_body ext args inp s = (sg, s', t) ->
  sg = Val tt \/ sg = Continue ->
  cur_frame s <= cur_frame s'
  /\ (sg = Val tt -> cur_frame s' = cur_frame s + 1)
  /\ (passes_left args inp s' < passes_left args inp s)%nat.
Proof.
  intros H Hsg. apply loop_body_inv in H.
  destruct H as [(img & s1 & t1 & t2 & Hs & Hp & ->) | (sg0 & Hs & He)].
  - apply select_val in Hs.
    destruct Hs as (path & hand & s0 & Hl & Hc & Hle & _ & Hv & _).
    apply process_frame_state in Hp. destruct Hp as (Hc' & Hv' & _).
    apply load_data_val in Hl. destruct Hl as (_ & _ & _ & Hst).
    unfold passes_left. rewrite Hc', Hv', Hc, Hv.
    destruct (is_stream inp).
    + destruct Hst as [Hlt Hvid]. apply Z.ltb_ge in Hlt.
      rewrite Hvid by discriminate. repeat split; lia.
    + repeat split; lia.
  - destruct Hsg as [-> | ->]; destruct sg0; simpl in He; try discriminate.
    apply select_continue in Hs.
    pose proof (load_data_frame _ _ _ _ Hs) as (Hc & _).
    apply load_data_continue in Hs. destruct Hs as (Hst & Hlt & Hv & _).
    unfold passes_left. rewrite Hst, Hc, Hv.
    repeat split; try lia; discriminate.
Qed.

End Pieces.

Section Runs.
Local Open Scope list_scope.
Context {image mesh : Type}.
Variable ext : Externals image mesh.
Variable args : Args.
Variable inp : input (image := image).

(** *** The loop *)

Lemma run_loop_step fuel (s : state) :
  run_loop ext args inp (S fuel) s =
    let '(sg, s', t) := loop_body ext args inp s in
    let pass := {| it_frame := cur_frame s; it_events := t; it_flow := flow_of sg |} in
    match sg with
    | Val _ | Continue =>
        let '(its, s'', fin) := run_loop ext args inp fuel s' in (pass :: its, s'', fin)
    | Break => ([pass], s', Finished)
    | Raise e => ([pass], s', Crashed e)
    end.
Proof. reflexivity. Qed.

(** Every pass of the log is a run of the body from a state that satisfies
    whatever the passes before it preserved. *)
Lemma run_loop_inv (I : state -> Prop) (P : @iteration image mesh -> Prop) :
  (forall s sg s1 t,
      I s -> loop_body ext args inp s = (sg, s1, t) ->
      P {| it_frame := cur_frame s; it_events := t; it_flow := flow_of sg |}
      /\ (sg = Val tt \/ sg = Continue -> I s1)) ->
  forall fuel s its s' fin,
    I s -> run_loop ext args inp fuel s = (its, s', fin) -> Forall P its.
Proof.
  intros Hstep. induction fuel as [| fuel IH]; intros s its s' fin Hs Hrun.
  - simpl in Hrun. inversion Hrun. constructor.
  - rewrite run_loop_step in Hrun.
    destruct (loop_body ext args inp s) as [[sg s1] t] eqn:Hb.
    destruct (Hstep _ _ _ _ Hs Hb) as [HP HI].
    destruct sg as [[] | | | e].
    + destruct (run_loop ext args inp fuel s1) as [[its1 s2] fin1] eqn:Hr.
      inversion Hrun; subst. constructor; [exact HP |].
      eapply IH; [apply HI; auto | exact Hr].
    + destruct (run_loop ext args inp fuel s1) as [[its1 s2] fin1] eqn:Hr.
      inversion Hrun; subst. constructor; [exact HP |].
      eapply IH; [apply HI; auto | exact Hr].
    + inversion Hrun; subst. repeat constructor. exact HP.
    + inversion Hrun; subst. repeat constructor. exact HP.
Qed.

(** The log ends with the pass that left the loop. *)
Lemma run_loop_final fuel (s : state) its s' fin :
  run_loop ext args inp fuel s = (its, s', fin) ->
  match fin with
  | Finished =>
      exists front last_pass,
        its = front ++ [last_pass] /\ Forall goes_on front /\ it_flow last_pass = Broke
  | Crashed e =>
      exists front last_pass,
        its = front ++ [last_pass] /\ Forall goes_on front
        /\ it_flow last_pass = Raised e
  | OutOfFuel => Forall goes_on its
  end.
Proof.
  revert s its s' fin. induction fuel as [| fuel IH]; intros s its s' fin Hrun.
  - simpl in Hrun. inversion Hrun. constructor.
  - rewrite run_loop_step in Hrun.
    destruct (loop_body ext args inp s) as [[sg s1] t] eqn:Hb.
    destruct sg as [[] | | | e].
    + destruct (run_loop ext args inp fuel s1) as [[its1 s2] fin1] eqn:Hr.
      inversion Hrun; subst. specialize (IH _ _ _ _ Hr).
      destruct fin as [| e |].
      * destruct IH as (front & lp & -> & Hf & Hl).
        eexists (_ :: front), lp. repeat split; auto.
        constructor; [left; reflexivity | exact Hf].
      * destruct IH as (front & lp & -> & Hf & Hl).
        eexists (_ :: front), lp. repeat split; auto.
        constructor; [left; reflexivity | exact Hf].
      * constructor; [left; reflexivity | exact IH].
    + destruct (run_loop ext args inp fuel s1) as [[its1 s2] fin1] eqn:Hr.
      inversion Hrun; subst. specialize (IH _ _ _ _ Hr).
      destruct fin as [| e |].
      * destruct IH as (front & lp & -> & Hf & Hl).
        eexists (_ :: front), lp. repeat split; auto.
        constructor; [right; reflexivity | exact Hf].
      * destruct IH as (front & lp & -> & Hf & Hl).
        eexists (_ :: front), lp. repeat split; auto.
        constructor; [right; reflexivity | exact Hf].
      * constructor; [right; reflexivity | exact IH].
    + inversion Hrun; subst. exists [], {| it_frame := cur_frame s; it_events := t; it_flow := Broke |}.
      repeat split; constructor.
    + inversion Hrun; subst. exists [], {| it_frame := cur_frame s; it_events := t; it_flow := Raised e |}.
      repeat split; constructor.
Qed.

(** The loop always ends: [passes_left] passes are enough. *)
Lemma run_loop_terminates fuel (s : state) :
  (passes_left args inp s <= fuel)%nat ->
  snd (run_loop ext args inp fuel s) <> OutOfFuel.
Proof.
  revert s. induction fuel as [| fuel IH]; intros s Hle.
  - unfold passes_left in Hle. lia.
  - rewrite run_loop_step.
    destruct (loop_body ext args inp s) as [[sg s1] t] eqn:Hb.
    destruct sg as [[] | | | e]; simpl; try discriminate.
    + pose proof (loop_body_progress _ _ _ _ _ _ _ Hb (or_introl eq_refl)) as (_ & _ & Hlt).
      specialize (IH s1 ltac:(lia)).
      destruct (run_loop ext args inp fuel s1) as [[its1 s2] fin1]. exact IH.
    + pose proof (loop_body_progress _ _ _ _ _ _ _ Hb (or_intror eq_refl)) as (_ & _ & Hlt).
      specialize (IH s1 ltac:(lia)).
      destruct (run_loop ext args inp fuel s1) as [[its1 s2] fin1]. exact IH.
Qed.

(** The frame counter only grows along the log, and strictly after a pass
    that ran to the end of the body. *)
Lemma run_loop_frames fuel (s : state) its s' fin :
  run_loop ext args inp fuel s = (its, s', fin) ->
  Forall (fun p => cur_frame s <= it_frame p) its
  /\ NoDup (map it_frame
              (filter completed its)).
Proof.
  revert s its s' fin. induction fuel as [| fuel IH]; intros s its s' fin Hrun.
  - simpl in Hrun. inversion Hrun. split; constructor.
  - rewrite run_loop_step in Hrun.
    destruct (loop_body ext args inp s) as [[sg s1] t] eqn:Hb.
    destruct sg as [[] | | | e].
    + pose proof (loop_body_progress _ _ _ _ _ _ _ Hb (or_introl eq_refl)) as (_ & Hc & _).
      specialize (Hc eq_refl).
      destruct (run_loop ext args inp fuel s1) as [[its1 s2] fin1] eqn:Hr.
      inversion Hrun; subst. destruct (IH _ _ _ _ Hr) as [Hge Hnd].
      split.
      * constructor; [simpl; lia |].
        eapply Forall_impl; [| exact Hge]. intros p Hp. simpl in Hp. lia.
      * simpl. constructor; [| exact Hnd].
        intros Hin. apply in_map_iff in Hin. destruct Hin as (p & Hp & Hin).
        apply filter_In in Hin. destruct Hin as [Hin _].
        rewrite Forall_forall in Hge. specialize (Hge p Hin). lia.
    + pose proof (loop_body_progress _ _ _ _ _ _ _ Hb (or_intror eq_refl)) as (Hc & _ & _).
      destruct (run_loop ext args inp fuel s1) as [[its1 s2] fin1] eqn:Hr.
      inversion Hrun; subst. destruct (IH _ _ _ _ Hr) as [Hge Hnd].
      split.
      * constructor; [simpl; lia |].
        eapply Forall_impl; [| exact Hge]. intros p Hp. simpl in Hp. lia.
      * simpl. exact Hnd.
    + inversion Hrun; subst. split; [repeat constructor; simpl; lia | simpl; constructor].
    + inversion Hrun; subst. split; [repeat constructor; simpl; lia | simpl; constructor].
Qed.

End Runs.

Section WholeRun.

Local Open Scope list_scope.

Context {image mesh : Type}.
Variable ext : Externals image mesh.
Variable args : Args.
Variable inp : input (image := image).

(** *** The whole run *)

Lemma run_hand_mocap_no_out_dir :
  out_dir args = None ->
  run_hand_mocap ext args inp =
    {| run_setup := [SetupInput; CreateWindow]; run_passes := []; run_after := [];
       run_final :=
         Crashed (AssertionError "Please specify output dir to store the results") |}.
Proof. intros H. unfold run_hand_mocap. rewrite H. reflexivity. Qed.

Lemma run_hand_mocap_loop d :
  out_dir args = Some d ->
  exists s',
    run_loop ext args inp (passes_left args inp (initial_state args)) (initial_state args)
      = (run_passes (run_hand_mocap ext args inp), s',
         run_final (run_hand_mocap ext args inp))
    /\ run_setup (run_hand_mocap ext args inp) = [SetupInput; CreateWindow]
    /\ run_after (run_hand_mocap ext args inp)
       = match run_final (run_hand_mocap ext args inp) with
         | Finished => after_loop args inp
         | _ => []
         end
    /\ run_final (run_hand_mocap ext args inp) <> OutOfFuel.
Proof.
  intros H. unfold run_hand_mocap. rewrite H.
  pose proof (run_loop_terminates ext args inp _ (initial_state args) (Nat.le_refl _)) as Hfin.
  destruct (run_loop ext args inp (passes_left args inp (initial_state args))
              (initial_state args)) as [[its s'] fin] eqn:Hr.
  exists s'. simpl in *. auto.
Qed.

(** The run always ends, in a [break] or in an exception. *)
Lemma run_hand_mocap_ends :
  run_final (run_hand_mocap ext args inp) <> OutOfFuel.
Proof.
  destruct (out_dir args) as [d |] eqn:Hd.
  - destruct (run_hand_mocap_loop d Hd) as (s' & _ & _ & _ & H). exact H.
  - rewrite (run_hand_mocap_no_out_dir Hd). discriminate.
Qed.

Lemma run_hand_mocap_after :
  run_after (run_hand_mocap ext args inp)
  = match run_final (run_hand_mocap ext args inp) with
    | Finished => after_loop args inp
    | _ => []
    end.
Proof.
  destruct (out_dir args) as [d |] eqn:Hd.
  - destruct (run_hand_mocap_loop d Hd) as (s' & _ & _ & H & _). exact H.
  - rewrite (run_hand_mocap_no_out_dir Hd). reflexivity.
Qed.

(** Every pass of a run is a run of the body, from a state that satisfies
    any invariant of the loop. *)
Lemma run_hand_mocap_passes (I : state -> Prop) :
  I (initial_state args) ->
  (forall s sg s1 t,
      I s -> loop_body ext args inp s = (sg, s1, t) ->
      sg = Val tt \/ sg = Continue -> I s1) ->
  Forall (fun p => exists s sg s1,
              I s /\ out_dir args <> None /\ it_frame p = cur_frame s
              /\ loop_body ext args inp s = (sg, s1, it_events p)
              /\ it_flow p = flow_of sg)
    (run_passes (run_hand_mocap ext args inp)).
Proof.
  intros Hinit Hstep.
  destruct (out_dir args) as [d |] eqn:Hd.
  - destruct (run_hand_mocap_loop d Hd) as (s' & Hr & _).
    eapply (run_loop_inv ext args inp I); [| exact Hinit | exact Hr].
    intros s sg s1 t Hs Hb. split; [| eauto].
    exists s, sg, s1. simpl. repeat split; auto. discriminate.
  - rewrite (run_hand_mocap_no_out_dir Hd). constructor.
Qed.

Lemma run_hand_mocap_final :
  match run_final (run_hand_mocap ext args inp) with
  | Finished =>
      exists front last_pass,
        run_passes (run_hand_mocap ext args inp) = front ++ [last_pass]
        /\ Forall goes_on front /\ it_flow last_pass = Broke
  | Crashed e =>
      out_dir args = None
      \/ exists front last_pass,
          run_passes (run_hand_mocap ext args inp) = front ++ [last_pass]
          /\ Forall goes_on front /\ it_flow last_pass = Raised e
  | OutOfFuel => False
  end.
Proof.
  destruct (out_dir args) as [d |] eqn:Hd.
  - destruct (run_hand_mocap_loop d Hd) as (s' & Hr & _ & _ & Hne).
    apply run_loop_final in Hr.
    destruct (run_final (run_hand_mocap ext args inp)); auto.
  - rewrite (run_hand_mocap_no_out_dir Hd). simpl. auto.
Qed.

Lemma loop_events_in_run e :
  In e (trace_of (run_passes (run_hand_mocap ext args inp))) ->
  early_event e || processing_event e = true.
Proof.
  intros Hin. unfold trace_of in Hin. apply in_flat_map in Hin.
  destruct Hin as (p & Hp & He).
  pose proof (run_hand_mocap_passes (fun _ => True) I (fun _ _ _ _ _ _ _ => I)) as Hall.
  rewrite Forall_forall in Hall.
  destruct (Hall p Hp) as (s & sg & s1 & _ & _ & _ & Hb & _).
  apply loop_body_events in Hb. rewrite Forall_forall in Hb. auto.
Qed.

End WholeRun.

(** *** Frames taken for processing *)

Section Passes.
Local Open Scope list_scope.
Context {image mesh : Type}.
Variable ext : Externals image mesh.
Variable args : Args.
Variable inp : input (image := image).

(** For a frame taken for processing, the detector runs exactly when the boxes
    did not come with the frame and the crop type is 'no_crop'. *)
Lemma select_detect s sg s1 t :
  select_frame_and_boxes ext args inp s = (sg, s1, t) ->
  In (Print separator) t ->
  ((exists img, In (DetectHandBbox img) t)
   <-> is_bbox_dir inp = false
       /\ String.eqb (crop_type args) "hand_crop" = false
       /\ String.eqb (crop_type args) "no_crop" = true).
Proof.
  intros H Hin. unfold select_frame_and_boxes in H.
  cases_of H; tidy.
  all: try (exfalso; unfold separator in *; intuition discriminate).
  all: split;
    [ intros [img' Hd]; try (exfalso; intuition discriminate); auto
    | intros (Hb & Hh & Hn); try discriminate; try congruence;
      eexists; simpl; eauto 6 ].
Qed.

(** Under 'hand_crop' with no preloaded boxes the hand list of a frame taken
    for processing is the one box around the whole image. *)
Lemma select_hand_crop s sg s1 t :
  String.eqb (crop_type args) "hand_crop" = true -> is_bbox_dir inp = false ->
  select_frame_and_boxes ext args inp s = (sg, s1, t) ->
  In (Print separator) t ->
  exists img s0 t0,
    load_data ext args inp s = (Val (Some img, false), s0, t0)
    /\ hand_bbox_list s1
       = Some [ [("right_hand", Some [0; 0; snd (shape ext img); fst (shape ext img)])] ]
    /\ body_bbox_list s1 = body_bbox_list s.
Proof.
  intros Hc Hb H Hin. unfold select_frame_and_boxes in H.
  cases_of H; tidy; try discriminate; try congruence.
  all: try (exfalso; unfold separator in *; intuition discriminate).
  all: do 3 eexists; repeat split.
  all: try (recompute; reflexivity).
  all: recompute; reflexivity.
Qed.

(** What the first half does once the frame is loaded: lines 135-137 decide. *)
Lemma select_after_load s oimg load_bbox s0 t0 sg s1 t :
  load_data ext args inp s = (Val (oimg, load_bbox), s0, t0) ->
  select_frame_and_boxes ext args inp s = (sg, s1, t) ->
  match oimg with
  | None => sg = Break /\ s1 = with_cur_frame (cur_frame s + 1) s0 /\ t = t0
  | Some img =>
      if cur_frame s + 1 >? end_frame args
      then sg = Break /\ s1 = with_cur_frame (cur_frame s + 1) s0 /\ t = t0
      else exists t2, t = t0 ++ Print separator :: t2
  end.
Proof.
  intros Hl H. pose proof (load_data_frame _ _ _ _ _ _ _ Hl) as (Hc & _).
  unfold select_frame_and_boxes in H. bind_inv H.
  - rewrite Hl in Hm. inversion Hm; subst. simpl fst in Hk. bind_inv Hk.
    + rewrite frame_gate_run, Hc in Hm0.
      destruct oimg as [img |];
        [destruct (cur_frame s + 1 >? end_frame args) |]; inversion Hm0; subst.
      eexists. simpl. reflexivity.
    + rewrite frame_gate_run, Hc in Hm0.
      destruct oimg as [img |];
        [destruct (cur_frame s + 1 >? end_frame args) |]; inversion Hm0; subst;
        simpl in Hk0; inversion Hk0; subst; rewrite app_nil_r; auto.
  - rewrite Hl in Hm. inversion Hm; subst. discriminate Hk.
Qed.

(** A pass prints the separator only for a loaded frame inside the range. *)
Lemma loop_body_marked s sg s' t :
  loop_body ext args inp s = (sg, s', t) ->
  In (Print separator) t ->
  exists img s0 t0,
    load_data ext args inp s = (Val (Some img, is_bbox_dir inp), s0, t0)
    /\ cur_frame s + 1 <= end_frame args.
Proof.
  intros H Hin. apply loop_body_inv in H.
  destruct H as [(img & s1 & t1 & t2 & Hs & Hp & ->) | (sg0 & Hs & _)].
  - apply select_val in Hs. destruct Hs as (path & hand & s0 & Hl & _ & Hle & _).
    eauto.
  - eapply select_marked; eauto.
Qed.

(** What a pass does once the frame is loaded. *)
Lemma loop_body_after_load s oimg load_bbox s0 t0 sg s' t :
  load_data ext args inp s = (Val (oimg, load_bbox), s0, t0) ->
  loop_body ext args inp s = (sg, s', t) ->
  match oimg with
  | None => sg = Break /\ s' = with_cur_frame (cur_frame s + 1) s0 /\ t = t0
  | Some img =>
      if cur_frame s + 1 >? end_frame args
      then sg = Break /\ s' = with_cur_frame (cur_frame s + 1) s0 /\ t = t0
      else In (Print separator) t
  end.
Proof.
  intros Hl H. apply loop_body_inv in H.
  destruct H as [(img & s1 & t1 & t2 & Hs & Hp & ->) | (sg0 & Hs & He)].
  - pose proof (select_after_load _ _ _ _ _ _ _ _ Hl Hs) as Ha.
    destruct oimg as [img' |];
      [destruct (cur_frame s + 1 >? end_frame args) |];
      try (destruct Ha as [Ha _]; discriminate Ha).
    destruct Ha as [t3 ->]. apply in_or_app. left. apply in_or_app. right. left.
    reflexivity.
  - pose proof (select_after_load _ _ _ _ _ _ _ _ Hl Hs) as Ha.
    destruct oimg as [img' |];
      [destruct (cur_frame s + 1 >? end_frame args) |].
    + destruct Ha as (-> & -> & ->). simpl in He. inversion He. auto.
    + destruct Ha as [t3 ->]. apply in_or_app. right. left. reflexivity.
    + destruct Ha as (-> & -> & ->). simpl in He. inversion He. auto.
Qed.

End Passes.

(** *** The reads of a capture *)

Section Reads.

Context {image mesh : Type}.
Variable ext : Externals image mesh.
Variable args : Args.

Lemma process_frame_reads img s sg s1 t :
  process_frame ext args img s = (sg, s1, t) -> reads s1 = reads s.
Proof.
  intros H. unfold process_frame in H. cases_of H; reflexivity.
Qed.

Lemma select_capture inp cap s sg s1 t :
  inp = video cap \/ inp = webcam (Some cap) ->
  select_frame_and_boxes ext args inp s = (sg, s1, t) ->
  out_dir args <> None ->
  reads s1 = S (reads s)
  /\ (exists t', t = CapRead (reads s) :: t' /\ forall n, ~ In (CapRead n) t')
  /\ (if video_frame s <? cur_frame s
      then sg = Continue /\ t = [CapRead (reads s)]
           /\ video_frame s1 = video_frame s + 1 /\ cur_frame s1 = cur_frame s
      else sg <> Continue
           /\ forall img, sg = Val img ->
                video_frame s1 = video_frame s + 1 /\ cur_frame s1 = cur_frame s + 1).
Proof.
  intros Hinp H Hout. unfold select_frame_and_boxes in H.
  destruct Hinp as [-> | ->].
  all: cases_of H; tidy; try congruence.
  all: split; [reflexivity |]; split;
    [ eexists; split; [reflexivity | intros n Hn; simpl in Hn; intuition discriminate] | ].
  all: match goal with
       | E : (video_frame _ <? cur_frame _) = _ |- _ => rewrite E
       end.
  all: repeat split; try reflexivity; try discriminate.
  all: intros img' E; try discriminate E; split; reflexivity.
Qed.

End Reads.

(** *** The frames a run reaches *)

Section Reach.

Local Open Scope list_scope.

Context {image mesh : Type}.
Variable ext : Externals image mesh.
Variable args : Args.
Variable inp : input (image := image).

Lemma py_index_lt (A : Type) (l : list A) (i : Z) (x : A) :
  py_index l i = Some x -> (i <? len l) = true.
Proof.
  unfold py_index, len. intros H. apply Z.ltb_lt.
  destruct ((0 <=? i) && (i <? Z.of_nat (List.length l))) eqn:H1.
  - apply andb_true_iff in H1. destruct H1 as [H1 H2]. apply Z.ltb_lt in H2. lia.
  - destruct ((- Z.of_nat (List.length l) <=? i) && (i <? 0)) eqn:H2; [| discriminate].
    apply andb_true_iff in H2. destruct H2 as [H2 H3]. apply Z.ltb_lt in H3. lia.
Qed.

(** What the input delivers for the frame of a pass that does not drop a
    read. *)
Lemma load_data_loads s oimg load_bbox s0 t0 :
  out_dir args <> None -> in_step args inp s ->
  load_data ext args inp s = (Val (oimg, load_bbox), s0, t0) ->
  (oimg <> None <-> frame_loads ext args inp (cur_frame s))
  /\ (oimg <> None -> reads s0 = (if is_stream inp then S (reads s) else reads s)).
Proof.
  intros Hout Hin H. unfold in_step in Hin. unfold frame_loads, read_of_frame.
  destruct inp as [l | l | c | [c |] | ty]; simpl in Hin.
  - cases_of H; tidy; (split; [| reflexivity]).
    all: split; [intros Hn | intros (p & i & Hp & Hi)]; try congruence; eauto.
    all: try (apply py_index_lt in Hp; congruence).
    all: try (rewrite Hp in *; tidy; congruence).
    all: match goal with
         | Hn : imread ext ?p <> None |- _ =>
             destruct (imread ext p) eqn:?; [eauto | congruence]
         end.
  - cases_of H; tidy; (split; [| reflexivity]).
    all: split; [intros Hn | intros (p & i & Hp & Hi)]; try congruence; eauto.
    all: try (apply py_index_lt in Hp; congruence).
    all: try (rewrite Hp in *; tidy; congruence).
    all: match goal with
         | Hn : imread ext ?p <> None |- _ =>
             destruct (imread ext p) eqn:?; [eauto | congruence]
         end.
  - destruct (Hin eq_refl) as [Hr Hc]. cases_of H; tidy; try congruence.
    all: match goal with E : (_ <? _) = false |- _ => apply Z.ltb_ge in E end.
    all: assert (Hn : Z.to_nat (cur_frame s - Z.min 0 (start_frame args)) = reads s) by lia.
    all: rewrite Hn; (split; [| intros; reflexivity]).
    all: split; [intros; eauto; congruence | intros [? ?]; congruence].
  - destruct (Hin eq_refl) as [Hr Hc]. cases_of H; tidy; try congruence.
    all: match goal with E : (_ <? _) = false |- _ => apply Z.ltb_ge in E end.
    all: assert (Hn : Z.to_nat (cur_frame s - Z.min 0 (start_frame args)) = reads s) by lia.
    all: rewrite Hn; (split; [| intros; reflexivity]).
    all: split; [intros; eauto; congruence | intros [? ?]; congruence].
  - cases_of H.
  - cases_of H.
Qed.


Lemma load_data_raise s e s0 t0 :
  out_dir args <> None ->
  load_data ext args inp s = (Raise e, s0, t0) ->
  ~ frame_loads ext args inp (cur_frame s).
Proof.
  intros Hout H. unfold frame_loads.
  destruct inp as [l | l | c | [c |] | ty]; try (intros Hf; exact Hf).
  all: cases_of H; tidy; try congruence.
  all: intros (p & i & Hp & _); congruence.
Qed.

Lemma load_data_skip s s0 t0 :
  in_step args inp s ->
  load_data ext args inp s = (Continue, s0, t0) ->
  in_step args inp s0 /\ cur_frame s0 = cur_frame s
  /\ ~ In (Print separator) t0.
Proof.
  intros Hin H. unfold in_step in *.
  destruct inp as [l | l | c | [c |] | ty]; simpl in *.
  all: cases_of H; tidy.
  all: destruct (Hin eq_refl) as [Hr Hc].
  all: match goal with E : (_ <? _) = true |- _ => apply Z.ltb_lt in E end.
  all: split; [intros _; split; lia |].
  all: split; [reflexivity |].
  all: intros [E | []]; discriminate E.
Qed.

Lemma selection_not_marked (t : list (@event image mesh)) :
  Forall (fun e => selection_event e = true) t -> ~ In (Print separator) t.
Proof.
  intros H Hin. rewrite Forall_forall in H. apply H in Hin.
  unfold selection_event in Hin. rewrite String.eqb_refl in Hin. discriminate Hin.
Qed.

Lemma select_break s s1 t :
  select_frame_and_boxes ext args inp s = (Break, s1, t) ->
  Forall (fun e => selection_event e = true) t.
Proof.
  intros H. unfold select_frame_and_boxes in H.
  cases_of H; repeat constructor.
Qed.

Lemma process_frame_no_break img s s1 t :
  process_frame ext args img s = (Break, s1, t) -> False.
Proof.
  intros H. unfold process_frame in H. cases_of H.
Qed.

Lemma loop_body_break s s' t :
  loop_body ext args inp s = (Break, s', t) -> ~ In (Print separator) t.
Proof.
  intros H. apply loop_body_inv in H.
  destruct H as [(img & s1 & t1 & t2 & Hs & Hp & ->) | (sg0 & Hs & He)].
  - exfalso. eapply process_frame_no_break; eauto.
  - destruct sg0; simpl in He; try discriminate.
    apply selection_not_marked. eapply select_break; eauto.
Qed.

(** One pass, seen from the frame it is at: it drops a read, or it takes the
    frame for processing exactly when the input delivers the frame and the
    frame is below [end_frame]. *)
Lemma loop_body_reach s sg s' t :
  out_dir args <> None -> in_step args inp s ->
  loop_body ext args inp s = (sg, s', t) ->
  (sg = Continue /\ ~ In (Print separator) t
   /\ cur_frame s' = cur_frame s /\ in_step args inp s')
  \/ ((In (Print separator) t
       <-> frame_loads ext args inp (cur_frame s) /\ cur_frame s + 1 <= end_frame args)
      /\ (sg = Val tt \/ sg = Continue ->
          In (Print separator) t /\ in_step args inp s'
          /\ cur_frame s' = cur_frame s + 1)
      /\ (sg = Break -> ~ In (Print separator) t)).
Proof.
  intros Hout Hin Hb.
  destruct (load_data ext args inp s) as [[r s0] t0] eqn:Hl.
  destruct r as [[oimg lb] | | | e].
  - right.
    pose proof (loop_body_after_load _ _ _ _ _ _ _ _ _ _ _ Hl Hb) as Ha.
    destruct (load_data_loads _ _ _ _ _ Hout Hin Hl) as [Hloads Hreads].
    split; [| split].
    + split.
      * intros Hm. destruct (loop_body_marked _ _ _ _ _ _ _ Hb Hm)
          as (img & s0' & t0' & Hl' & Hle).
        rewrite Hl in Hl'. inversion Hl'; subst. split; [| exact Hle].
        apply Hloads. discriminate.
      * intros [Hld Hle]. apply Hloads in Hld.
        destruct oimg as [img |]; [| congruence].
        assert (Hgt : (cur_frame s + 1 >? end_frame args) = false).
        { rewrite Z.gtb_ltb. apply Z.ltb_ge. lia. }
        rewrite Hgt in Ha. exact Ha.
    + intros Hsg.
      assert (Hm : In (Print separator) t).
      { destruct oimg as [img |].
        - destruct (cur_frame s + 1 >? end_frame args).
          + destruct Ha as (-> & _). destruct Hsg; discriminate.
          + exact Ha.
        - destruct Ha as (-> & _). destruct Hsg; discriminate. }
      split; [exact Hm |].
      destruct (loop_body_marked _ _ _ _ _ _ _ Hb Hm) as (img & s0' & t0' & Hl' & Hle).
      rewrite Hl in Hl'. inversion Hl'; subst oimg lb s0' t0'.
      pose proof Hb as Hb'. apply loop_body_inv in Hb'.
      destruct Hb' as [(img' & s1 & t1 & t2 & Hs & Hp & ->) | (sg0 & Hs & He)].
      * pose proof (select_val _ _ _ _ _ _ _ Hs)
          as (path & hand & s0' & Hl2 & Hc & _ & _ & Hv & _).
        rewrite Hl in Hl2. inversion Hl2; subst s0'.
        pose proof (process_frame_state _ _ _ _ _ _ _ Hp) as (Hc' & Hv' & _).
        pose proof (process_frame_reads _ _ _ _ _ _ _ Hp) as Hr'.
        split; [| congruence].
        unfold in_step in *. intros Hst. destruct (Hin Hst) as [Hr Hcase].
        apply load_data_val in Hl. destruct Hl as (_ & _ & _ & Hstream).
        rewrite Hst in Hstream. destruct Hstream as [Hskip Hvf].
        apply Z.ltb_ge in Hskip.
        assert (Hrd : reads s1 = S (reads s)).
        { destruct inp as [l | l | c | [c |] | ty]; try discriminate Hst.
          - apply (select_capture _ _ _ c _ _ _ _ (or_introl eq_refl) Hs Hout).
          - apply (select_capture _ _ _ c _ _ _ _ (or_intror eq_refl) Hs Hout).
          - unfold select_frame_and_boxes in Hs. cases_of Hs. }
        rewrite Hr', Hrd, Hv', Hv, Hc', Hc, (Hvf ltac:(discriminate)).
        split; lia.
      * exfalso. destruct Hsg as [-> | ->]; destruct sg0; simpl in He; try discriminate.
        apply select_continue in Hs. congruence.
    + intros ->. eapply loop_body_break; eauto.
  - left. unfold loop_body, select_frame_and_boxes, bind in Hb. rewrite Hl in Hb.
    inversion Hb; subst.
    destruct (load_data_skip _ _ _ Hin Hl) as (Hin' & Hc & Hno). auto.
  - exfalso. eapply load_data_break; eauto.
  - right. unfold loop_body, select_frame_and_boxes, bind in Hb. rewrite Hl in Hb.
    inversion Hb; subst.
    assert (Hno : ~ In (Print separator) t).
    { apply selection_not_marked. apply load_data_frame in Hl. apply Hl. }
    split; [| split].
    + split; [intros Hm; contradiction |].
      intros [Hld _]. exfalso. eapply load_data_raise; eauto.
    + intros [E | E]; discriminate E.
    + intros E; discriminate E.
Qed.


Lemma in_step_initial : in_step args inp (initial_state args).
Proof.
  unfold in_step, initial_state. simpl. intros _. split; [reflexivity | lia].
Qed.

(** The frames a run of the loop takes for processing: those the loop
    reaches. *)
Lemma run_loop_reach fuel (s : state) its s' fin :
  run_loop ext args inp fuel s = (its, s', fin) ->
  fin <> OutOfFuel -> out_dir args <> None -> in_step args inp s ->
  forall f,
    cur_frame s <= f <= end_frame args - 1 ->
    ((exists p, In p its /\ it_frame p = f /\ processed p)
     <-> (forall g, cur_frame s <= g <= f -> frame_loads ext args inp g)
         /\ (forall q, In q its -> it_frame q < f -> forall e, it_flow q <> Raised e)).
Proof.
  intros Hrun Hfin Hout. revert s its s' Hrun.
  induction fuel as [| fuel IH]; intros s its s' Hrun Hin f Hf.
  - simpl in Hrun. inversion Hrun; subst. congruence.
  - pose proof (run_loop_frames _ _ _ _ _ _ _ _ Hrun) as [Hfrom _].
    rewrite Forall_forall in Hfrom.
    rewrite run_loop_step in Hrun.
    destruct (loop_body ext args inp s) as [[sg s1] t] eqn:Hb.
    pose proof (loop_body_reach _ _ _ _ Hout Hin Hb) as Hreach.
    set (pass := {| it_frame := cur_frame s; it_events := t; it_flow := flow_of sg |}) in *.
    destruct Hreach as [(-> & Hno & Hc & Hin1) | (Hiff & Hgo & Hbr)].
    + (* a dropped read *)
      destruct (run_loop ext args inp fuel s1) as [[its1 s2] fin1] eqn:Hr.
      inversion Hrun; subst its s' fin.
      assert (Hf1 : cur_frame s1 <= f <= end_frame args - 1) by lia.
      pose proof (IH _ _ _ Hr Hin1 f Hf1) as IH1. rewrite Hc in IH1.
      split.
      * intros (p & [<- | Hp] & Hpf & Hpr); [contradiction |].
        destruct IH1 as [IH1 _]. destruct IH1 as [Hl Hq]; [eauto |].
        split; [exact Hl |]. intros q [<- | Hq'] Hlt e; [discriminate |]. eauto.
      * intros [Hl Hq]. destruct IH1 as [_ IH1].
        destruct IH1 as (p & Hp & Hpf & Hpr).
        { split; [exact Hl |]. intros q Hq'. apply Hq. right. exact Hq'. }
        exists p. split; [right; exact Hp | auto].
    + destruct sg as [[] | | | e0].
      * (* the body ran to its end *)
        destruct (run_loop ext args inp fuel s1) as [[its1 s2] fin1] eqn:Hr.
        inversion Hrun; subst its s' fin.
        destruct (Hgo (or_introl eq_refl)) as (Hm & Hin1 & Hc).
        destruct (proj1 Hiff Hm) as [Hld Hle].
        destruct (Z.eq_dec f (cur_frame s)) as [-> | Hne].
        -- split.
           ++ intros _. split.
              ** intros g Hg. assert (g = cur_frame s) as -> by lia. exact Hld.
              ** intros q Hq Hlt. apply Hfrom in Hq. lia.
           ++ intros _. exists pass. split; [left; reflexivity | split; [reflexivity | exact Hm]].
        -- assert (Hf1 : cur_frame s1 <= f <= end_frame args - 1) by lia.
           pose proof (IH _ _ _ Hr Hin1 f Hf1) as IH1. rewrite Hc in IH1.
           split.
           ++ intros (p & [<- | Hp] & Hpf & Hpr); [simpl in Hpf; congruence |].
              destruct IH1 as [IH1 _]. destruct IH1 as [Hl Hq]; [eauto |].
              split.
              ** intros g Hg. destruct (Z.eq_dec g (cur_frame s)) as [-> | Hg'];
                   [exact Hld | apply Hl; lia].
              ** intros q [<- | Hq'] Hlt e; [discriminate |]. eauto.
           ++ intros [Hl Hq]. destruct IH1 as [_ IH1].
              destruct IH1 as (p & Hp & Hpf & Hpr).
              { split; [intros g Hg; apply Hl; lia |].
                intros q Hq'. apply Hq. right. exact Hq'. }
              exists p. split; [right; exact Hp | auto].
      * (* no hand: on to the next frame *)
        destruct (run_loop ext args inp fuel s1) as [[its1 s2] fin1] eqn:Hr.
        inversion Hrun; subst its s' fin.
        destruct (Hgo (or_intror eq_refl)) as (Hm & Hin1 & Hc).
        destruct (proj1 Hiff Hm) as [Hld Hle].
        destruct (Z.eq_dec f (cur_frame s)) as [-> | Hne].
        -- split.
           ++ intros _. split.
              ** intros g Hg. assert (g = cur_frame s) as -> by lia. exact Hld.
              ** intros q Hq Hlt. apply Hfrom in Hq. lia.
           ++ intros _. exists pass. split; [left; reflexivity | split; [reflexivity | exact Hm]].
        -- assert (Hf1 : cur_frame s1 <= f <= end_frame args - 1) by lia.
           pose proof (IH _ _ _ Hr Hin1 f Hf1) as IH1. rewrite Hc in IH1.
           split.
           ++ intros (p & [<- | Hp] & Hpf & Hpr); [simpl in Hpf; congruence |].
              destruct IH1 as [IH1 _]. destruct IH1 as [Hl Hq]; [eauto |].
              split.
              ** intros g Hg. destruct (Z.eq_dec g (cur_frame s)) as [-> | Hg'];
                   [exact Hld | apply Hl; lia].
              ** intros q [<- | Hq'] Hlt e; [discriminate |]. eauto.
           ++ intros [Hl Hq]. destruct IH1 as [_ IH1].
              destruct IH1 as (p & Hp & Hpf & Hpr).
              { split; [intros g Hg; apply Hl; lia |].
                intros q Hq'. apply Hq. right. exact Hq'. }
              exists p. split; [right; exact Hp | auto].
      * (* the break *)
        inversion Hrun; subst its s' fin.
        pose proof (Hbr eq_refl) as Hno.
        split.
        -- intros (p & [<- | []] & Hpf & Hpr). contradiction.
        -- intros [Hl _]. exfalso. apply Hno. apply Hiff.
           split; [apply Hl; lia | lia].
      * (* an exception *)
        inversion Hrun; subst its s' fin.
        destruct (Z.eq_dec f (cur_frame s)) as [-> | Hne].
        -- split.
           ++ intros (p & [<- | []] & Hpf & Hpr).
              destruct (proj1 Hiff Hpr) as [Hld _]. split.
              ** intros g Hg. assert (g = cur_frame s) as -> by lia. exact Hld.
              ** intros q [<- | []] Hlt. simpl in Hlt. lia.
           ++ intros [Hl _]. exists pass.
              split; [left; reflexivity | split; [reflexivity |]].
              apply Hiff. split; [apply Hl; lia | lia].
        -- split.
           ++ intros (p & [<- | []] & Hpf & Hpr). simpl in Hpf. congruence.
           ++ intros [_ Hq]. exfalso.
              apply (Hq pass (or_introl eq_refl) ltac:(simpl; lia) e0). reflexivity.
Qed.


Lemma run_processed_range p :
  In p (run_passes (run_hand_mocap ext args inp)) ->
  processed p ->
  start_frame args <= it_frame p <= end_frame args - 1.
Proof.
  intros Hin Hproc.
  pose proof (run_hand_mocap_passes ext args inp
                (fun s => start_frame args <= cur_frame s) (Z.le_refl _)) as Hall.
  assert (Hstep : forall s sg s1 t,
             start_frame args <= cur_frame s ->
             loop_body ext args inp s = (sg, s1, t) ->
             sg = Val tt \/ sg = Continue -> start_frame args <= cur_frame s1).
  { intros s sg s1 t Hs Hb Hsg.
    destruct (loop_body_progress _ _ _ _ _ _ _ Hb Hsg) as (Hle & _). lia. }
  specialize (Hall Hstep). rewrite Forall_forall in Hall.
  destruct (Hall p Hin) as (s & sg & s1 & Hs & _ & Hfr & Hb & _).
  destruct (loop_body_marked _ _ _ _ _ _ _ Hb Hproc) as (_ & _ & _ & _ & Hle).
  rewrite Hfr. lia.
Qed.

(** Over a whole run: the frame with number [f] is taken for processing
    exactly when it lies in the range, the output directory is given, the
    input delivers every frame from [start_frame] to [f], and no pass of an
    earlier frame raised. *)
Lemma run_hand_mocap_reach f :
  (exists p,
      In p (run_passes (run_hand_mocap ext args inp)) /\ it_frame p = f /\ processed p)
  <-> start_frame args <= f <= end_frame args - 1
      /\ out_dir args <> None
      /\ (forall g, start_frame args <= g <= f -> frame_loads ext args inp g)
      /\ (forall q,
             In q (run_passes (run_hand_mocap ext args inp)) ->
             it_frame q < f -> forall e, it_flow q <> Raised e).
Proof.
  destruct (out_dir args) as [d |] eqn:Hd.
  - destruct (run_hand_mocap_loop ext args inp d Hd) as (s' & Hr & _ & _ & Hne).
    assert (Hout : out_dir args <> None) by congruence.
    split.
    + intros (p & Hin & Hf & Hp).
      pose proof (run_processed_range p Hin Hp) as Hrange. rewrite Hf in Hrange.
      split; [exact Hrange |]. split; [discriminate |].
      apply (run_loop_reach _ _ _ _ _ Hr Hne Hout in_step_initial f Hrange).
      exists p. auto.
    + intros (Hrange & _ & Hl & Hq).
      apply (run_loop_reach _ _ _ _ _ Hr Hne Hout in_step_initial f Hrange).
      split; assumption.
  - rewrite (run_hand_mocap_no_out_dir _ _ _ Hd). simpl. split.
    + intros (p & [] & _).
    + intros (_ & Hn & _). congruence.
Qed.

End Reach.

(** ** The claims about the driver *)

Section Claims.

Local Open Scope list_scope.

Context {image mesh : Type}.
Variable ext : Externals image mesh.
Variable args : Args.

Lemma early_not_processing (e : @event image mesh) :
  early_event e = true -> processing_event e = false.
Proof. destruct e; simpl; intros H; auto; discriminate. Qed.



(** C6.  A frame that reaches the emptiness check with an empty hand bbox list
    is dropped: the pass ends in [continue] after printing the notice, with
    the frame counter one further, and made no call of regression, point
    cloud, rendering, result image or pkl; the bbox JSON, when
    [save_bbox_output] is set, was written before; the loop goes on with the
    next pass. *)
Theorem no_hand_frame_is_skipped :
  forall inp s img s1 t1,
    select_frame_and_boxes ext args inp s = (Val img, s1, t1) ->
    hand_bbox_list s1 = Some [] ->
    exists path,
      image_path s1 = Some path
      /\ loop_body ext args inp s
         = (Continue, s1, t1 ++ [Print ("No hand deteced: " ++ path)%string])
      /\ cur_frame s1 = cur_frame s + 1
      /\ Forall (fun e => processing_event e = false)
           (t1 ++ [Print ("No hand deteced: " ++ path)%string])
      /\ (save_bbox_output args = true ->
          exists body, In (SaveInfoToJson path body []) t1)
      /\ (forall fuel,
             run_loop ext args inp (S fuel) s =
               (let '(its, s', fin) := run_loop ext args inp fuel s1 in
                ({| it_frame := cur_frame s;
                    it_events := t1 ++ [Print ("No hand deteced: " ++ path)%string];
                    it_flow := Continued |} :: its, s', fin))).
Proof.
  intros inp s img s1 t1 Hs Hh.
  pose proof (select_events _ _ _ _ _ _ _ Hs) as Hev.
  pose proof (select_val _ _ _ _ _ _ _ Hs)
    as (path & hand & s0 & Hl & Hc & Hle & Hvis & Hvid & Hp & Hh' & Hsave & Hbox & Ht).
  rewrite Hh in Hh'. inversion Hh'; subst hand.
  assert (Hbody : loop_body ext args inp s
                  = (Continue, s1, t1 ++ [Print ("No hand deteced: " ++ path)%string])).
  { unfold loop_body. rewrite (bind_val _ _ _ _ _ _ _ _ Hs).
    rewrite (process_frame_no_hand _ _ _ _ _ Hh Hp). reflexivity. }
  exists path. repeat split; auto.
  - apply Forall_app. split.
    + eapply Forall_impl; [| exact Hev]. apply early_not_processing.
    + repeat constructor.
  - intros Hsb. specialize (Hsave Hsb).
    destruct (body_bbox_list s1) as [body |]; [| congruence].
    exists body. rewrite Ht. unfold json_events. rewrite Hsb.
    repeat (apply in_or_app; right). left. reflexivity.
  - intros fuel. rewrite run_loop_step. rewrite Hbody. reflexivity.
Qed.

Lemma eqb_no_crop_not_hand_crop :
  String.eqb (crop_type args) "no_crop" = true ->
  String.eqb (crop_type args) "hand_crop" = false.
Proof. intros H. apply String.eqb_eq in H. rewrite H. reflexivity. Qed.

Lemma process_frame_no_detect img s sg s1 t i :
  process_frame ext args img s = (sg, s1, t) -> ~ In (DetectHandBbox i) t.
Proof.
  intros H Hin. apply process_frame_state in H.
  destruct H as (_ & _ & _ & _ & _ & H). rewrite Forall_forall in H.
  apply H in Hin. discriminate Hin.
Qed.

(** C5 (amended).  For a frame taken for processing, [detect_hand_bbox] is
    called if and only if the boxes did not come from a 'bbox_dir' input and
    the crop type is 'no_crop'.  Under 'hand_crop' no detection runs, and
    when the boxes did not come from a 'bbox_dir' input the hand bbox list
    is the single entry [right_hand = [0, 0, img_w, img_h]] of the loaded
    image. *)
Theorem detection_iff_no_crop_and_not_preloaded :
  forall inp s sg s' t,
    loop_body ext args inp s = (sg, s', t) ->
    In (Print separator) t ->
    ((exists img, In (DetectHandBbox img) t)
     <-> is_bbox_dir inp = false /\ crop_type args = "no_crop")
    /\ (crop_type args = "hand_crop" ->
        (forall img, ~ In (DetectHandBbox img) t)
        /\ (is_bbox_dir inp = false ->
            exists img s0 t0,
              load_data ext args inp s = (Val (Some img, false), s0, t0)
              /\ hand_bbox_list s'
                 = Some [ [("right_hand",
                            Some [0; 0; snd (shape ext img); fst (shape ext img)])] ])).
Proof.
  intros inp s sg s' t H Hin.
  assert (Hdet : (exists img, In (DetectHandBbox img) t)
                 <-> is_bbox_dir inp = false /\ crop_type args = "no_crop").
  { apply loop_body_inv in H.
    destruct H as [(img & s1 & t1 & t2 & Hs & Hp & ->) | (sg0 & Hs & _)].
    - assert (Hin1 : In (Print separator) t1).
      { apply select_val in Hs.
        destruct Hs as (path & hand & s0 & _ & _ & _ & _ & _ & _ & _ & _ & _ & ->).
        apply in_or_app. right. left. reflexivity. }
      pose proof (select_detect _ _ _ _ _ _ _ Hs Hin1) as Hiff.
      split.
      + intros [i Hi]. apply in_app_or in Hi. destruct Hi as [Hi | Hi].
        * destruct Hiff as [Hiff _]. destruct (Hiff (ex_intro _ i Hi)) as (Hb & _ & Hn).
          split; [exact Hb | apply String.eqb_eq; exact Hn].
        * exfalso. eapply process_frame_no_detect; eauto.
      + intros [Hb Hn]. destruct Hiff as [_ Hiff].
        assert (Hn' : String.eqb (crop_type args) "no_crop" = true)
          by (apply String.eqb_eq; exact Hn).
        destruct Hiff as [i Hi];
          [auto using eqb_no_crop_not_hand_crop |].
        exists i. apply in_or_app. left. exact Hi.
    - pose proof (select_detect _ _ _ _ _ _ _ Hs Hin) as Hiff.
      split.
      + intros Hex. destruct Hiff as [Hiff _]. destruct (Hiff Hex) as (Hb & _ & Hn).
        split; [exact Hb | apply String.eqb_eq; exact Hn].
      + intros [Hb Hn]. destruct Hiff as [_ Hiff]. apply Hiff.
        assert (Hn' : String.eqb (crop_type args) "no_crop" = true)
          by (apply String.eqb_eq; exact Hn).
        auto using eqb_no_crop_not_hand_crop. }
  split; [exact Hdet |].
  intros Hc. split.
  - intros img Hd. destruct Hdet as [Hdet _].
    destruct (Hdet (ex_intro _ img Hd)) as [_ Hn]. rewrite Hc in Hn. discriminate Hn.
  - intros Hb.
    assert (Hc' : String.eqb (crop_type args) "hand_crop" = true)
      by (apply String.eqb_eq; exact Hc).
    apply loop_body_inv in H.
    destruct H as [(img & s1 & t1 & t2 & Hs & Hp & ->) | (sg0 & Hs & _)].
    + assert (Hin1 : In (Print separator) t1).
      { apply select_val in Hs.
        destruct Hs as (path & hand & s0 & _ & _ & _ & _ & _ & _ & _ & _ & _ & ->).
        apply in_or_app. right. left. reflexivity. }
      destruct (select_hand_crop _ _ _ _ _ _ _ Hc' Hb Hs Hin1)
        as (img' & s0 & t0 & Hl & Hh & _).
      apply process_frame_state in Hp. destruct Hp as (_ & _ & _ & Hh' & _).
      exists img', s0, t0. split; [exact Hl | congruence].
    + destruct (select_hand_crop _ _ _ _ _ _ _ Hc' Hb Hs Hin)
        as (img' & s0 & t0 & Hl & Hh & _).
      exists img', s0, t0. split; [exact Hl | exact Hh].
Qed.

(** Once a pass has called [visualize], it saves the result image. *)
Lemma visualize_then_save inp p img m h :
  In p (run_passes (run_hand_mocap ext args inp)) ->
  In (Visualize img m h) (it_events p) ->
  exists d path r,
    out_dir args = Some d /\ In (SaveResImg d path r) (it_events p).
Proof.
  intros Hp Hv.
  pose proof (run_hand_mocap_passes ext args inp (fun _ => True) I
                (fun _ _ _ _ _ _ _ => I)) as Hall.
  rewrite Forall_forall in Hall.
  destruct (Hall p Hp) as (s & sg & s1 & _ & Hout & _ & Hb & _).
  destruct (out_dir args) as [d |] eqn:Hd; [| congruence].
  apply loop_body_inv in Hb.
  destruct Hb as [(i & s2 & t1 & t2 & Hs & Hpf & Ht) | (sg0 & Hs & _)].
  - rewrite Ht in *. apply in_app_or in Hv. destruct Hv as [Hv | Hv].
    + apply select_events in Hs. rewrite Forall_forall in Hs.
      apply Hs in Hv. discriminate Hv.
    + apply select_val in Hs.
      destruct Hs as (path & hand & s0 & _ & _ & _ & _ & _ & Hpath & _).
      destruct (process_frame_visualize _ _ _ _ _ _ _ _ _ _ _ _ Hpf Hv Hd Hpath)
        as [r Hr].
      exists d, path, r. split; [reflexivity |]. apply in_or_app. right. exact Hr.
  - apply select_events in Hs. rewrite Forall_forall in Hs.
    apply Hs in Hv. discriminate Hv.
Qed.

(** C4 (amended).  Saving the result image is not optional inside a run: a
    pass that calls [visualize] also calls [save_res_img], with the output
    directory that the assertion before the loop found to be set. *)
Theorem visualized_frame_is_saved :
  forall inp p img m h,
    In p (run_passes (run_hand_mocap ext args inp)) ->
    In (Visualize img m h) (it_events p) ->
    exists d path r,
      out_dir args = Some d /\ In (SaveResImg d path r) (it_events p).
Proof. intros inp p img m h. apply visualize_then_save. Qed.

Lemma no_gen_video_in_loop inp d sq :
  ~ In (GenVideoOut d sq) (trace_of (run_passes (run_hand_mocap ext args inp))).
Proof. intros Hin. apply loop_events_in_run in Hin. discriminate Hin. Qed.

Lemma no_release_in_loop inp :
  ~ In Release (trace_of (run_passes (run_hand_mocap ext args inp))).
Proof. intros Hin. apply loop_events_in_run in Hin. discriminate Hin. Qed.

Lemma run_setup_events inp e :
  In e (run_setup (run_hand_mocap ext args inp)) -> e = SetupInput \/ e = CreateWindow.
Proof.
  unfold run_hand_mocap. destruct (out_dir args).
  - destruct (run_loop ext args inp _ _) as [[its s'] fin]. simpl. intuition.
  - simpl. intuition.
Qed.

(** C7.  A run whose loop ends in the [break] generates the video if and only
    if the input is a video or a webcam and [no_video_out] is false; with an
    'image_dir' or 'bbox_dir' input no run generates a video, however it
    ends. *)
Theorem video_out_iff_stream_input :
  forall inp,
    (run_final (run_hand_mocap ext args inp) = Finished ->
     ((exists d sq, In (GenVideoOut d sq) (run_trace (run_hand_mocap ext args inp)))
      <-> is_stream inp = true /\ no_video_out args = false))
    /\ (is_stream inp = false ->
        forall d sq, ~ In (GenVideoOut d sq) (run_trace (run_hand_mocap ext args inp))).
Proof.
  intros inp.
  assert (Hafter : forall d sq,
             In (GenVideoOut d sq) (run_trace (run_hand_mocap ext args inp)) ->
             In (GenVideoOut d sq) (run_after (run_hand_mocap ext args inp))).
  { intros d sq Hin. unfold run_trace in Hin.
    apply in_app_or in Hin. destruct Hin as [Hin | Hin].
    - apply run_setup_events in Hin. destruct Hin; discriminate.
    - apply in_app_or in Hin. destruct Hin as [Hin | Hin]; [| exact Hin].
      exfalso. eapply no_gen_video_in_loop; eauto. }
  split.
  - intros Hfin. split.
    + intros (d & sq & Hin). apply Hafter in Hin.
      rewrite run_hand_mocap_after, Hfin in Hin. unfold after_loop in Hin.
      destruct (no_video_out args), (is_stream inp); simpl in Hin; auto;
        destruct inp as [| | | [c |] |]; simpl in Hin;
        intuition discriminate.
    + intros [Hs Hn]. exists (out_dir args), (seq_name args).
      unfold run_trace. apply in_or_app. right. apply in_or_app. right.
      rewrite run_hand_mocap_after, Hfin. unfold after_loop. rewrite Hs, Hn.
      simpl. left. reflexivity.
  - intros Hs d sq Hin. apply Hafter in Hin. rewrite run_hand_mocap_after in Hin.
    destruct (run_final (run_hand_mocap ext args inp)); simpl in Hin; auto.
    unfold after_loop in Hin. rewrite Hs in Hin.
    rewrite andb_false_r in Hin.
    destruct inp as [| | | [c |] |]; simpl in *; try discriminate;
      intuition discriminate.
Qed.

(** C3 (the code misses the 'video' case).  With a 'video' input the capture
    is never released, however the run ends; with a 'webcam' input whose
    capture is not None a run that leaves the loop by [break] ends with
    [release()] followed by [destroyAllWindows()]. *)
Theorem video_capture_is_not_released :
  forall cap,
    ~ In Release (run_trace (run_hand_mocap ext args (video cap)))
    /\ (run_final (run_hand_mocap ext args (webcam (Some cap))) = Finished ->
        exists before,
          run_trace (run_hand_mocap ext args (webcam (Some cap)))
          = before ++ [Release; DestroyAllWindows]).
Proof.
  intros cap. split.
  - intros Hin. unfold run_trace in Hin.
    apply in_app_or in Hin. destruct Hin as [Hin | Hin].
    + apply run_setup_events in Hin. destruct Hin; discriminate.
    + apply in_app_or in Hin. destruct Hin as [Hin | Hin].
      * eapply no_release_in_loop; eauto.
      * rewrite run_hand_mocap_after in Hin.
        destruct (run_final (run_hand_mocap ext args (video cap))); simpl in Hin; auto.
        unfold after_loop in Hin.
        destruct (negb (no_video_out args) && is_stream (video cap));
          simpl in Hin; intuition discriminate.
  - intros Hfin. unfold run_trace. rewrite run_hand_mocap_after, Hfin.
    unfold after_loop.
    exists (run_setup (run_hand_mocap ext args (webcam (Some cap)))
            ++ trace_of (run_passes (run_hand_mocap ext args (webcam (Some cap))))
            ++ (if negb (no_video_out args) && is_stream (webcam (Some cap))
                then [GenVideoOut (out_dir args) (seq_name args)] else [])).
    rewrite <- !app_assoc. reflexivity.
Qed.

(** *** The run under 'hand_crop' *)

Lemma select_hand_crop_outcome inp s sg s1 t :
  String.eqb (crop_type args) "hand_crop" = true -> is_bbox_dir inp = false ->
  body_bbox_list s = None ->
  select_frame_and_boxes ext args inp s = (sg, s1, t) ->
  body_bbox_list s1 = None
  /\ (forall path body hand, ~ In (SaveInfoToJson path body hand) t)
  /\ (forall img hand, ~ In (Regress img hand true) t)
  /\ (In (Print separator) t ->
      if save_bbox_output args
      then sg = Raise (UnboundLocalError "body_bbox_list")
      else exists img, sg = Val img).
Proof.
  intros Hc Hb Hn H. unfold select_frame_and_boxes in H.
  cases_of H; tidy; try discriminate; try congruence.
  all: repeat split; auto; try (intros; intuition discriminate).
  all: try (intros; exfalso; unfold separator in *; intuition discriminate).
  all: intros; eauto.
Qed.

Lemma hand_crop_pass inp s sg s' t :
  String.eqb (crop_type args) "hand_crop" = true -> is_bbox_dir inp = false ->
  body_bbox_list s = None ->
  loop_body ext args inp s = (sg, s', t) ->
  body_bbox_list s' = None
  /\ (In (Print separator) t ->
      sg = Raise (UnboundLocalError "body_bbox_list")
      /\ (forall path body hand, ~ In (SaveInfoToJson path body hand) t)
      /\ ((exists img hand, In (Regress img hand true) t)
          <-> save_bbox_output args = false)).
Proof.
  intros Hc Hb Hn H. apply loop_body_inv in H.
  destruct H as [(img & s1 & t1 & t2 & Hs & Hp & ->) | (sg0 & Hs & He)].
  - destruct (select_hand_crop_outcome _ _ _ _ _ Hc Hb Hn Hs) as (Hn1 & Hj & Hr & Hout).
    pose proof (select_val _ _ _ _ _ _ _ Hs)
      as (path & hand & s0 & _ & _ & _ & _ & _ & _ & Hh & Hsave & Hbox & Ht).
    rewrite Hb, Hc in Hbox. destruct Hbox as [-> _].
    rewrite (process_frame_unbound_body _ _ _ _ _ _ Hh Hn1) in Hp.
    inversion Hp; subst. split; [exact Hn1 |].
    intros _. split; [reflexivity |]. split.
    + intros p b h Hin. apply in_app_or in Hin. destruct Hin as [Hin | Hin].
      * eapply Hj; eauto.
      * simpl in Hin. intuition discriminate.
    + split.
      * intros _. destruct (save_bbox_output args); [| reflexivity].
        exfalso. apply Hsave; auto.
      * intros _. do 2 eexists. apply in_or_app. right. left. reflexivity.
  - destruct (select_hand_crop_outcome _ _ _ _ _ Hc Hb Hn Hs) as (Hn1 & Hj & Hr & Hout).
    split; [exact Hn1 |]. intros Hin. specialize (Hout Hin).
    destruct (save_bbox_output args).
    + subst sg0. simpl in He. inversion He; subst.
      split; [reflexivity |]. split; [exact Hj |].
      split; [intros (i & h & Hi); exfalso; eapply Hr; eauto | discriminate].
    + destruct Hout as [i ->]. discriminate He.
Qed.

(** A pass that ended in an exception is the last one, and the run ended in
    that exception. *)
Lemma raised_pass_is_last inp p e :
  In p (run_passes (run_hand_mocap ext args inp)) ->
  it_flow p = Raised e ->
  run_final (run_hand_mocap ext args inp) = Crashed e
  /\ exists front,
      run_passes (run_hand_mocap ext args inp) = front ++ [p]
      /\ Forall goes_on front.
Proof.
  intros Hin Hf.
  assert (Hno : forall front, Forall goes_on front -> ~ In p front).
  { intros front Hall Hp. rewrite Forall_forall in Hall.
    destruct (Hall p Hp) as [Hg | Hg]; rewrite Hf in Hg; discriminate. }
  pose proof (run_hand_mocap_final ext args inp) as Hfin.
  destruct (run_final (run_hand_mocap ext args inp)) as [| e' |].
  - destruct Hfin as (front & lp & Heq & Hall & Hl).
    rewrite Heq in Hin. apply in_app_or in Hin. destruct Hin as [Hin | [<- | []]].
    + exfalso. eapply Hno; eauto.
    + rewrite Hf in Hl. discriminate.
  - destruct Hfin as [Hnone | (front & lp & Heq & Hall & Hl)].
    + rewrite (run_hand_mocap_no_out_dir _ _ _ Hnone) in Hin. destruct Hin.
    + rewrite Heq in Hin. apply in_app_or in Hin. destruct Hin as [Hin | [<- | []]].
      * exfalso. eapply Hno; eauto.
      * rewrite Hf in Hl. inversion Hl; subst. split; [reflexivity |].
        exists front. split; [exact Heq | exact Hall].
  - destruct Hfin.
Qed.

(** C8 (amended).  With crop type 'hand_crop' and an input that is not a
    'bbox_dir', [body_bbox_list] is never assigned: the first frame taken for
    processing ends the run with UnboundLocalError for [body_bbox_list],
    raised by the JSON save when [save_bbox_output] is set (nothing is saved
    and [regress] is not called) and otherwise by the length assertion right
    after [regress]; that pass is the last of the run, so no later frame is
    ever processed. *)
Theorem unbound_body_bbox_list_ends_the_run :
  forall inp p,
    crop_type args = "hand_crop" -> is_bbox_dir inp = false ->
    In p (run_passes (run_hand_mocap ext args inp)) ->
    processed p ->
    it_flow p = Raised (UnboundLocalError "body_bbox_list")
    /\ (forall path body hand, ~ In (SaveInfoToJson path body hand) (it_events p))
    /\ ((exists img hand, In (Regress img hand true) (it_events p))
        <-> save_bbox_output args = false)
    /\ run_final (run_hand_mocap ext args inp)
       = Crashed (UnboundLocalError "body_bbox_list")
    /\ exists front,
        run_passes (run_hand_mocap ext args inp) = front ++ [p]
        /\ Forall goes_on front.
Proof.
  intros inp p Hc Hb Hin Hproc.
  assert (Hc' : String.eqb (crop_type args) "hand_crop" = true)
    by (apply String.eqb_eq; exact Hc).
  pose proof (run_hand_mocap_passes ext args inp
                (fun s => body_bbox_list s = None) eq_refl) as Hall.
  assert (Hstep : forall s sg s1 t,
             body_bbox_list s = None ->
             loop_body ext args inp s = (sg, s1, t) ->
             sg = Val tt \/ sg = Continue -> body_bbox_list s1 = None).
  { intros s sg s1 t Hn Hbody _.
    destruct (hand_crop_pass _ _ _ _ _ Hc' Hb Hn Hbody) as [Hn1 _]. exact Hn1. }
  specialize (Hall Hstep). rewrite Forall_forall in Hall.
  destruct (Hall p Hin) as (s & sg & s1 & Hn & _ & _ & Hbody & Hflow).
  destruct (hand_crop_pass _ _ _ _ _ Hc' Hb Hn Hbody) as [_ Hmark].
  destruct (Hmark Hproc) as (-> & Hj & Hr).
  simpl in Hflow.
  destruct (raised_pass_is_last _ _ _ Hin Hflow) as [Hfin Hlast].
  repeat split; auto; apply Hr.
Qed.

(** *** The order of the calls of a pass *)

Lemma loop_body_completed inp s s' t :
  loop_body ext args inp s = (Val tt, s', t) ->
  exists img path hand body joints,
    t = selection_events args inp s path img ++ [Print separator]
        ++ box_events args inp img ++ json_events args path body hand
        ++ frame_events ext args (vis_initialized s) img hand body path joints
    /\ cur_frame s' = cur_frame s + 1.
Proof.
  intros H. apply loop_body_inv in H.
  destruct H as [(img & s1 & t1 & t2 & Hs & Hp & ->) | (sg0 & Hs & He)].
  - pose proof (select_val _ _ _ _ _ _ _ Hs)
      as (path & hand & s0 & _ & Hc & _ & Hvis & _ & Hpath & Hh & _ & _ & Ht).
    pose proof (process_frame_state _ _ _ _ _ _ _ Hp) as (Hc' & _).
    pose proof (process_frame_completed _ _ _ _ _ _ _ Hp)
      as (hand' & body & path' & first & rest & h & joints
          & Hh' & Hb & Hpath' & _ & _ & _ & _ & _ & _ & Ht2).
    rewrite Hh in Hh'. inversion Hh'; subst hand'.
    rewrite Hpath in Hpath'. inversion Hpath'; subst path'.
    rewrite Hb in Ht. rewrite Hvis in Ht2.
    exists img, path, hand, body, joints. split; [| congruence].
    rewrite Ht, Ht2. rewrite <- !app_assoc. reflexivity.
  - destruct sg0; simpl in He; discriminate.
Qed.

(** C1 (amended).  Every pass that runs to the end of the loop body makes its
    calls in this order: the frame is selected from the one input source
    (for a video or webcam with [save_frame] the frame JPEG is written here),
    the separator is printed, the boxes come with the frame, are made up, or
    are detected, the bbox JSON is written when asked for, then [regress],
    the point cloud, [visualize], the display when asked for, the result
    image, the pkl when asked for, and the final message; each call occurs
    once, the frame counter moves on by one, and no frame index is completed
    twice in a run. *)
Theorem completed_pass_order :
  forall inp,
    (forall s s' t,
        loop_body ext args inp s = (Val tt, s', t) ->
        exists img path hand body joints,
          t = selection_events args inp s path img ++ [Print separator]
              ++ box_events args inp img ++ json_events args path body hand
              ++ frame_events ext args (vis_initialized s) img hand body path joints
          /\ cur_frame s' = cur_frame s + 1)
    /\ (forall p,
           In p (run_passes (run_hand_mocap ext args inp)) ->
           it_flow p = Completed ->
           exists s s',
             it_frame p = cur_frame s
             /\ loop_body ext args inp s = (Val tt, s', it_events p))
    /\ NoDup (map it_frame (filter completed (run_passes (run_hand_mocap ext args inp)))).
Proof.
  intros inp. split; [| split].
  - intros s s' t. apply loop_body_completed.
  - intros p Hin Hf.
    pose proof (run_hand_mocap_passes ext args inp (fun _ => True) I
                  (fun _ _ _ _ _ _ _ => I)) as Hall.
    rewrite Forall_forall in Hall.
    destruct (Hall p Hin) as (s & sg & s1 & _ & _ & Hfr & Hb & Hfl).
    rewrite Hf in Hfl. destruct sg as [[] | | |]; simpl in Hfl; try discriminate.
    exists s, s1. split; assumption.
  - destruct (out_dir args) as [d |] eqn:Hd.
    + destruct (run_hand_mocap_loop ext args inp d Hd) as (s' & Hr & _).
      apply run_loop_frames in Hr. destruct Hr as [_ Hnd]. exact Hnd.
    + rewrite (run_hand_mocap_no_out_dir _ _ _ Hd). simpl. constructor.
Qed.

(** *** Assertions *)

Lemma regression_mismatch img hand body s :
  hand_bbox_list s = Some hand -> body_bbox_list s = Some body ->
  (len hand =? len body) && (len body =? len (regress ext img hand)) = false ->
  regression ext img hand s = (Raise (AssertionError ""), s, [Regress img hand true]).
Proof.
  intros Hh Hb Hlen.
  unfold regression, bind, emit, read_local, assert_, ret, raise.
  rewrite Hh, Hb. cbv beta iota zeta.
  destruct (len hand =? len body); simpl in Hlen.
  - rewrite Hlen. reflexivity.
  - reflexivity.
Qed.

Lemma loop_body_assertion inp s msg s' t :
  loop_body ext args inp s = (Raise (AssertionError msg), s', t) ->
  (exists input_type, inp = other_input input_type)
  \/ (crop_type args <> "hand_crop" /\ crop_type args <> "no_crop"
      /\ is_bbox_dir inp = false)
  \/ (exists img hand body,
         In (Regress img hand true) t
         /\ hand_bbox_list s' = Some hand /\ body_bbox_list s' = Some body
         /\ (len hand <> len body \/ len body <> len (regress ext img hand))).
Proof.
  intros H. apply loop_body_inv in H.
  destruct H as [(img & s1 & t1 & t2 & Hs & Hp & ->) | (sg0 & Hs & He)].
  - right. right.
    pose proof (process_frame_state _ _ _ _ _ _ _ Hp) as (_ & _ & _ & Hh & Hb & _).
    destruct (process_frame_assertion _ _ _ _ _ _ _ Hp)
      as (hand & body & Hh' & Hb' & Hlen & ->).
    exists img, hand, body. repeat split; try congruence.
    apply in_or_app. right. left. reflexivity.
  - destruct sg0; simpl in He; try discriminate. inversion He; subst.
    destruct (select_assertion _ _ _ _ _ _ _ Hs) as [Hi | (Hh & Hn & Hb)].
    + left. exact Hi.
    + right. left. apply String.eqb_neq in Hh. apply String.eqb_neq in Hn. auto.
Qed.

(** C2.  The driver's error handling is its assertions, and a failed
    assertion, like any other exception, ends the run on the spot: without
    CUDA [main] stops before anything is built; without an output directory
    [run_hand_mocap] stops before the first pass; inside the loop an
    AssertionError comes from an unknown input type, from a crop type that is
    neither 'hand_crop' nor 'no_crop', or from the length checks after
    [regress]; a pass that raises is the last pass, and nothing of what
    follows the loop is run. *)
Theorem assertions_abort_the_run :
  forall inp,
    (run_final (main ext args inp false)
       = Crashed (AssertionError "Current version only supports GPU")
     /\ run_trace (main ext args inp false) = [])
    /\ (out_dir args = None ->
        run_final (run_hand_mocap ext args inp)
          = Crashed (AssertionError "Please specify output dir to store the results")
        /\ run_passes (run_hand_mocap ext args inp) = []
        /\ run_after (run_hand_mocap ext args inp) = [])
    /\ (forall s msg s' t,
           loop_body ext args inp s = (Raise (AssertionError msg), s', t) ->
           (exists input_type, inp = other_input input_type)
           \/ (crop_type args <> "hand_crop" /\ crop_type args <> "no_crop"
               /\ is_bbox_dir inp = false)
           \/ (exists img hand body,
                  In (Regress img hand true) t
                  /\ hand_bbox_list s' = Some hand /\ body_bbox_list s' = Some body
                  /\ (len hand <> len body
                      \/ len body <> len (regress ext img hand))))
    /\ (forall input_type s,
           inp = other_input input_type ->
           loop_body ext args inp s = (Raise (AssertionError "Unknown input_type"), s, []))
    /\ (forall img s,
           crop_type args <> "hand_crop" -> crop_type args <> "no_crop" ->
           bbox_detection ext args img false s = (Raise (AssertionError ""), s, []))
    /\ (forall img hand body s,
           hand_bbox_list s = Some hand -> body_bbox_list s = Some body ->
           len hand <> len body \/ len body <> len (regress ext img hand) ->
           regression ext img hand s
             = (Raise (AssertionError ""), s, [Regress img hand true]))
    /\ (forall fuel s e s' t,
           loop_body ext args inp s = (Raise e, s', t) ->
           run_loop ext args inp (S fuel) s
             = ([ {| it_frame := cur_frame s; it_events := t; it_flow := Raised e |} ],
                s', Crashed e))
    /\ (forall e cuda_is_available,
           run_final (main ext args inp cuda_is_available) = Crashed e ->
           run_after (main ext args inp cuda_is_available) = []).
Proof.
  intros inp. repeat match goal with |- _ /\ _ => split end.
  - reflexivity.
  - reflexivity.
  - intros Hd. rewrite (run_hand_mocap_no_out_dir _ _ _ Hd). auto.
  - intros s msg s' t. apply loop_body_assertion.
  - intros input_type s ->. reflexivity.
  - intros img s Hh Hn. rewrite bbox_detection_run.
    apply String.eqb_neq in Hh. apply String.eqb_neq in Hn. rewrite Hh, Hn.
    reflexivity.
  - intros img hand body s Hh Hb Hlen. apply (regression_mismatch img hand body s Hh Hb).
    apply andb_false_iff.
    destruct Hlen as [Hlen | Hlen]; [left | right]; apply Z.eqb_neq; exact Hlen.
  - intros fuel s e s' t Hb. rewrite run_loop_step, Hb. reflexivity.
  - intros e [|] Hf; unfold main in *; simpl in *; [| reflexivity].
    rewrite run_hand_mocap_after, Hf. reflexivity.
Qed.

(** *** The frame range *)

(** C9 (amended).  A pass that loads a frame at index [f = cur_frame] takes it
    for processing if and only if the loaded image is not None and
    [f <= end_frame - 1]; a pass entered at [f = end_frame] loads the frame
    and leaves the loop with nothing else done, and for a video or a webcam
    with [save_frame] set that frame is still written as a JPEG; a pass whose
    image is None leaves the loop as well, so later frames are not reached;
    every frame processed in a run has [start_frame <= f <= end_frame - 1];
    and over a whole run the frame with index [f] is processed if and only
    if [start_frame <= f <= end_frame - 1], the output directory is given,
    the input delivers an image for every frame from [start_frame] to [f],
    and no pass of an earlier frame raised an exception. *)
Theorem frame_range_is_exclusive_at_the_top :
  forall inp,
    (forall s oimg load_bbox s0 t0 sg s' t,
        load_data ext args inp s = (Val (oimg, load_bbox), s0, t0) ->
        loop_body ext args inp s = (sg, s', t) ->
        (In (Print separator) t
         <-> oimg <> None /\ cur_frame s <= end_frame args - 1))
    /\ (forall s oimg load_bbox s0 t0,
           load_data ext args inp s = (Val (oimg, load_bbox), s0, t0) ->
           cur_frame s = end_frame args ->
           loop_body ext args inp s
             = (Break, with_cur_frame (end_frame args + 1) s0, t0))
    /\ (forall s load_bbox s0 t0,
           load_data ext args inp s = (Val (None, load_bbox), s0, t0) ->
           loop_body ext args inp s
             = (Break, with_cur_frame (cur_frame s + 1) s0, t0))
    /\ (forall cap d s img,
           inp = video cap \/ inp = webcam (Some cap) ->
           out_dir args = Some d -> save_frame args = true ->
           (video_frame s <? cur_frame s) = false ->
           cap (reads s) = Some img ->
           cur_frame s = end_frame args ->
           exists path s',
             loop_body ext args inp s
               = (Break, s', [CapRead (reads s); MakeSubdir path; Imwrite path img]))
    /\ (forall p,
           In p (run_passes (run_hand_mocap ext args inp)) ->
           processed p ->
           start_frame args <= it_frame p <= end_frame args - 1)
    /\ (forall f,
           (exists p,
               In p (run_passes (run_hand_mocap ext args inp))
               /\ it_frame p = f /\ processed p)
           <-> start_frame args <= f <= end_frame args - 1
               /\ out_dir args <> None
               /\ (forall g, start_frame args <= g <= f -> frame_loads ext args inp g)
               /\ (forall q,
                      In q (run_passes (run_hand_mocap ext args inp)) ->
                      it_frame q < f -> forall e, it_flow q <> Raised e)).
Proof.
  intros inp.
  assert (Hend : forall s oimg load_bbox s0 t0,
             load_data ext args inp s = (Val (oimg, load_bbox), s0, t0) ->
             cur_frame s = end_frame args ->
             loop_body ext args inp s
               = (Break, with_cur_frame (end_frame args + 1) s0, t0)).
  { intros s oimg lb s0 t0 Hl Hc.
    destruct (loop_body ext args inp s) as [[sg s'] t] eqn:Hb.
    pose proof (loop_body_after_load _ _ _ _ _ _ _ _ _ _ _ Hl Hb) as Ha.
    assert (Hgt : (cur_frame s + 1 >? end_frame args) = true).
    { rewrite Z.gtb_ltb. apply Z.ltb_lt. lia. }
    rewrite Hgt in Ha. rewrite Hc in Ha.
    destruct oimg; destruct Ha as (-> & -> & ->); reflexivity. }
  repeat match goal with |- _ /\ _ => split end.
  - intros s oimg lb s0 t0 sg s' t Hl Hb. split.
    + intros Hin. destruct (loop_body_marked _ _ _ _ _ _ _ Hb Hin)
        as (img & s0' & t0' & Hl' & Hle).
      rewrite Hl in Hl'. inversion Hl'; subst. split; [discriminate | lia].
    + intros [Hsome Hle].
      pose proof (loop_body_after_load _ _ _ _ _ _ _ _ _ _ _ Hl Hb) as Ha.
      destruct oimg as [img |]; [| congruence].
      assert (Hgt : (cur_frame s + 1 >? end_frame args) = false).
      { rewrite Z.gtb_ltb. apply Z.ltb_ge. lia. }
      rewrite Hgt in Ha. exact Ha.
  - exact Hend.
  - intros s lb s0 t0 Hl.
    destruct (loop_body ext args inp s) as [[sg s'] t] eqn:Hb.
    pose proof (loop_body_after_load _ _ _ _ _ _ _ _ _ _ _ Hl Hb) as Ha.
    destruct Ha as (-> & -> & ->). reflexivity.
  - intros cap d s img Hinp Hd Hsave Hskip Hcap Hc.
    assert (Hl : exists prefix,
               load_data ext args inp s = load_stream args cap prefix s).
    { destruct Hinp as [-> | ->]; eexists; reflexivity. }
    destruct Hl as [prefix Hl].
    rewrite (load_stream_run args cap prefix d s Hd Hskip) in Hl.
    rewrite Hcap, Hsave in Hl.
    do 2 eexists. apply (Hend _ _ _ _ _ Hl Hc).
  - intros p Hin Hproc.
    pose proof (run_hand_mocap_passes ext args inp
                  (fun s => start_frame args <= cur_frame s) (Z.le_refl _)) as Hall.
    assert (Hstep : forall s sg s1 t,
               start_frame args <= cur_frame s ->
               loop_body ext args inp s = (sg, s1, t) ->
               sg = Val tt \/ sg = Continue -> start_frame args <= cur_frame s1).
    { intros s sg s1 t Hs Hb Hsg.
      destruct (loop_body_progress _ _ _ _ _ _ _ Hb Hsg) as (Hle & _). lia. }
    specialize (Hall Hstep). rewrite Forall_forall in Hall.
    destruct (Hall p Hin) as (s & sg & s1 & Hs & _ & Hfr & Hb & _).
    destruct (loop_body_marked _ _ _ _ _ _ _ Hb Hproc) as (_ & _ & _ & _ & Hle).
    rewrite Hfr. lia.
  - intros f. apply run_hand_mocap_reach.
Qed.

End Claims.

(** ** Concrete runs *)

Local Open Scope list_scope.

(** C1, as stated, fails on a plain run over a directory of images with the
    bbox JSON switched on: the first pass runs to the end of the body, and its
    JSON is written before [regress] is called, not with the outputs at the
    end.  With the JSON switched off the same pass is in the stated order. *)
Lemma json_is_saved_before_regression :
  it_flow (Sample.first_pass (run_hand_mocap Sample.ext Sample.args Sample.three_images))
    = Completed
  /\ in_claimed_order
       (it_events
          (Sample.first_pass (run_hand_mocap Sample.ext Sample.args Sample.three_images)))
     = false
  /\ in_claimed_order
       (it_events
          (Sample.first_pass
             (run_hand_mocap Sample.ext (Sample.with_save_bbox false Sample.args)
                Sample.three_images)))
     = true.
Proof. repeat split; vm_compute; reflexivity. Qed.

(** C4, as stated, fails: no configuration lets a pass of a run call
    [regress] and [visualize] and write no result image. *)
Lemma no_visualized_frame_without_result_image :
  ~ (exists (image mesh : Type) (ext : Externals image mesh) (args : Args)
            (inp : input (image := image)) (p : iteration),
        In p (run_passes (run_hand_mocap ext args inp))
        /\ (exists img hand, In (Regress img hand true) (it_events p))
        /\ (exists img m h, In (Visualize img m h) (it_events p))
        /\ (forall d path r, ~ In (SaveResImg d path r) (it_events p))).
Proof.
  intros (image & mesh & ext & args & inp & p & Hin & _ & (img & m & h & Hv) & Hno).
  destruct (visualize_then_save ext args inp p img m h Hin Hv) as (d & path & r & _ & Hs).
  exact (Hno d path r Hs).
Qed.

Lemma visualized_frame_is_saved_witness :
  exists d path r,
    out_dir Sample.args = Some d
    /\ In (SaveResImg d path r)
         (it_events
            (Sample.first_pass
               (run_hand_mocap Sample.ext Sample.args Sample.three_images))).
Proof.
  apply (visualized_frame_is_saved Sample.ext Sample.args Sample.three_images
           (Sample.first_pass (run_hand_mocap Sample.ext Sample.args Sample.three_images))
           (480, 640, 5%nat) [0%nat] [Sample.one_left_box]).
  - vm_compute. left. reflexivity.
  - vm_compute. do 9 right. left. reflexivity.
Defined.

(** C5, as stated, fails when the boxes come from a 'bbox_dir' input: under
    'hand_crop' the frame is processed with the two preloaded boxes, not with
    the one box around the whole image. *)
Lemma preloaded_boxes_win_over_hand_crop :
  crop_type (Sample.with_crop "hand_crop" Sample.args) = "hand_crop"
  /\ exists img hand,
       In (Regress img hand true)
          (it_events
             (Sample.first_pass
                (run_hand_mocap Sample.ext (Sample.with_crop "hand_crop" Sample.args)
                   Sample.two_boxes)))
       /\ hand = [Sample.one_left_box; Sample.one_left_box]
       /\ hand <> [ [("right_hand",
                      Some [0; 0; snd (shape Sample.ext img); fst (shape Sample.ext img)])] ].
Proof.
  split; [reflexivity |].
  exists (480, 640, 5%nat), [Sample.one_left_box; Sample.one_left_box].
  split; [vm_compute; do 4 right; left; reflexivity |].
  split; [reflexivity | discriminate].
Qed.

Lemma detection_iff_no_crop_and_not_preloaded_witness :
  exists sg s' t,
    loop_body Sample.ext Sample.args Sample.three_images (initial_state Sample.args)
      = (sg, s', t)
    /\ In (Print separator) t
    /\ ((exists img, In (DetectHandBbox img) t)
        <-> is_bbox_dir Sample.three_images = false
            /\ crop_type Sample.args = "no_crop").
Proof.
  destruct (loop_body Sample.ext Sample.args Sample.three_images
              (initial_state Sample.args)) as [[sg s'] t] eqn:Hb.
  assert (Hin : In (Print separator) t).
  { vm_compute in Hb. inversion Hb. right. left. reflexivity. }
  exists sg, s', t. split; [reflexivity |]. split; [exact Hin |].
  exact (proj1 (detection_iff_no_crop_and_not_preloaded Sample.ext Sample.args
                  Sample.three_images (initial_state Sample.args) sg s' t Hb Hin)).
Defined.

Lemma no_hand_frame_is_skipped_witness :
  exists path s1 t1,
    hand_bbox_list s1 = Some []
    /\ loop_body Sample.ext_no_hand Sample.args Sample.three_images
         (initial_state Sample.args)
       = (Continue, s1, t1 ++ [Print ("No hand deteced: " ++ path)%string])
    /\ cur_frame s1 = 1.
Proof.
  destruct (select_frame_and_boxes Sample.ext_no_hand Sample.args Sample.three_images
              (initial_state Sample.args)) as [[sg s1] t1] eqn:Hs.
  assert (Hsg : exists img, sg = Val img /\ hand_bbox_list s1 = Some []).
  { vm_compute in Hs. inversion Hs. eexists. split; reflexivity. }
  destruct Hsg as (img & -> & Hh).
  destruct (no_hand_frame_is_skipped Sample.ext_no_hand Sample.args Sample.three_images
              (initial_state Sample.args) img s1 t1 Hs Hh)
    as (path & _ & Hb & Hc & _).
  exists path, s1, t1. auto.
Defined.

(** C8, as stated, fails in its last part: under 'hand_crop' the run over
    three images is over after the pass of frame 0, which raised
    UnboundLocalError; no later frame is loaded, so no stale list is reused. *)
Lemma hand_crop_run_stops_at_the_first_frame :
  map it_frame
    (run_passes (run_hand_mocap Sample.ext Sample.hand_crop_args Sample.three_images))
    = [0]
  /\ map it_flow
       (run_passes (run_hand_mocap Sample.ext Sample.hand_crop_args Sample.three_images))
     = [Raised (UnboundLocalError "body_bbox_list")]
  /\ run_final (run_hand_mocap Sample.ext Sample.hand_crop_args Sample.three_images)
     = Crashed (UnboundLocalError "body_bbox_list")
  /\ ~ (exists img hand,
          In (Regress img hand true)
             (trace_of
                (tl (run_passes
                       (run_hand_mocap Sample.ext Sample.hand_crop_args
                          Sample.three_images))))).
Proof.
  repeat split; try (vm_compute; reflexivity).
  intros (img & hand & Hin). vm_compute in Hin. exact Hin.
Qed.

Lemma unbound_body_bbox_list_ends_the_run_witness :
  it_flow
    (Sample.first_pass
       (run_hand_mocap Sample.ext Sample.hand_crop_args Sample.three_images))
    = Raised (UnboundLocalError "body_bbox_list")
  /\ run_final (run_hand_mocap Sample.ext Sample.hand_crop_args Sample.three_images)
     = Crashed (UnboundLocalError "body_bbox_list").
Proof.
  assert (Hin : In (Sample.first_pass
                      (run_hand_mocap Sample.ext Sample.hand_crop_args
                         Sample.three_images))
                   (run_passes
                      (run_hand_mocap Sample.ext Sample.hand_crop_args
                         Sample.three_images))).
  { vm_compute. left. reflexivity. }
  assert (Hp : processed
                 (Sample.first_pass
                    (run_hand_mocap Sample.ext Sample.hand_crop_args
                       Sample.three_images))).
  { vm_compute. right. left. reflexivity. }
  destruct (unbound_body_bbox_list_ends_the_run Sample.ext Sample.hand_crop_args
              Sample.three_images _ eq_refl eq_refl Hin Hp)
    as (Hf & _ & _ & Hfin & _).
  split; assumption.
Defined.

(** C9, as stated, fails when an earlier image does not load: frame 1 is in
    the range and its file reads fine, yet the loop has left at frame 0 and
    never processes it. *)
Lemma frame_after_unreadable_image_is_not_processed :
  start_frame Sample.args <= 1 <= end_frame Sample.args - 1
  /\ (exists path img,
        py_index ["bad.jpg"; "b.jpg"] 1 = Some path
        /\ imread Sample.ext path = Some img)
  /\ ~ (exists p,
          In p (run_passes (run_hand_mocap Sample.ext Sample.args Sample.bad_then_good))
          /\ it_frame p = 1 /\ processed p).
Proof.
  split; [vm_compute; split; discriminate |].
  split; [do 2 eexists; split; vm_compute; reflexivity |].
  intros (p & Hin & Hf & _). vm_compute in Hin.
  destruct Hin as [<- | []]. discriminate Hf.
Qed.

Lemma completed_pass_order_witness :
  exists img path hand body joints,
    it_events (Sample.first_pass (run_hand_mocap Sample.ext Sample.args Sample.three_images))
    = selection_events Sample.args Sample.three_images (initial_state Sample.args) path img
      ++ [Print separator]
      ++ box_events Sample.args Sample.three_images img
      ++ json_events Sample.args path body hand
      ++ frame_events Sample.ext Sample.args false img hand body path joints.
Proof.
  destruct (loop_body Sample.ext Sample.args Sample.three_images
              (initial_state Sample.args)) as [[sg s'] t] eqn:Hb.
  assert (Hsg : sg = Val tt
                /\ t = it_events
                         (Sample.first_pass
                            (run_hand_mocap Sample.ext Sample.args Sample.three_images))).
  { vm_compute in Hb. inversion Hb. split; reflexivity. }
  destruct Hsg as [-> Ht].
  destruct (proj1 (completed_pass_order Sample.ext Sample.args Sample.three_images)
              _ _ _ Hb)
    as (img & path & hand & body & joints & Heq & _).
  exists img, path, hand, body, joints. rewrite <- Ht. exact Heq.
Defined.

Lemma assertions_abort_the_run_witness :
  run_final (run_hand_mocap Sample.ext_two_bodies Sample.args Sample.three_images)
    = Crashed (AssertionError "")
  /\ run_after (main Sample.ext_two_bodies Sample.args Sample.three_images true) = [].
Proof.
  assert (Hf : run_final
                 (main Sample.ext_two_bodies Sample.args Sample.three_images true)
               = Crashed (AssertionError "")).
  { vm_compute. reflexivity. }
  split; [exact Hf |].
  exact (proj2 (proj2 (proj2 (proj2 (proj2 (proj2 (proj2
           (assertions_abort_the_run Sample.ext_two_bodies Sample.args
              Sample.three_images)))))))
           _ true Hf).
Defined.

Lemma video_capture_is_not_released_witness :
  ~ In Release
      (run_trace (run_hand_mocap Sample.ext Sample.args (video Sample.camera)))
  /\ exists before,
       run_trace (run_hand_mocap Sample.ext Sample.args (webcam (Some Sample.camera)))
       = before ++ [Release; DestroyAllWindows].
Proof.
  destruct (video_capture_is_not_released Sample.ext Sample.args Sample.camera)
    as [Hv Hw].
  split; [exact Hv |]. apply Hw. vm_compute. reflexivity.
Defined.

Lemma video_out_iff_stream_input_witness :
  run_final (run_hand_mocap Sample.ext Sample.args (webcam (Some Sample.camera)))
    = Finished
  /\ exists d sq,
       In (GenVideoOut d sq)
          (run_trace (run_hand_mocap Sample.ext Sample.args (webcam (Some Sample.camera)))).
Proof.
  assert (Hf : run_final
                 (run_hand_mocap Sample.ext Sample.args (webcam (Some Sample.camera)))
               = Finished).
  { vm_compute. reflexivity. }
  split; [exact Hf |].
  apply (proj1 (video_out_iff_stream_input Sample.ext Sample.args
                  (webcam (Some Sample.camera))) Hf).
  split; reflexivity.
Defined.

Lemma frame_range_is_exclusive_at_the_top_witness :
  processed (Sample.first_pass (run_hand_mocap Sample.ext Sample.args Sample.three_images))
  /\ start_frame Sample.args
     <= it_frame
          (Sample.first_pass (run_hand_mocap Sample.ext Sample.args Sample.three_images))
     <= end_frame Sample.args - 1.
Proof.
  assert (Hp : processed
                 (Sample.first_pass
                    (run_hand_mocap Sample.ext Sample.args Sample.three_images))).
  { vm_compute. right. left. reflexivity. }
  split; [exact Hp |].
  apply (proj1 (proj2 (proj2 (proj2 (proj2
           (frame_range_is_exclusive_at_the_top Sample.ext Sample.args
              Sample.three_images)))))); [| exact Hp].
  vm_compute. left. reflexivity.
Defined.


(** ** Further properties of the driver *)

(** *** The names of the saved frames *)

Lemma string_app_inv_head (a b c : string) : (a ++ b = a ++ c)%string -> b = c.
Proof. induction a as [| ch a IH]; simpl; intros H; [exact H | inversion H; auto]. Qed.

Lemma string_length_app (a b : string) :
  String.length (a ++ b) = (String.length a + String.length b)%nat.
Proof. induction a as [| ch a IH]; simpl; [reflexivity | rewrite IH; reflexivity]. Qed.

Lemma string_app_inv_tail (a b c : string) : (a ++ c = b ++ c)%string -> a = b.
Proof.
  intros H.
  assert (Hlen : String.length a = String.length b).
  { apply (f_equal String.length) in H. rewrite !string_length_app in H. lia. }
  revert b H Hlen. induction a as [| ch a IH]; intros [| ch' b] H Hlen;
    simpl in *; try discriminate; [reflexivity |].
  inversion H; subst. f_equal. apply IH; auto.
Qed.

Lemma to_uint_not_nil (n : N) : N.to_uint n <> Decimal.Nil.
Proof.
  destruct n as [| p]; simpl; [discriminate | apply DecimalPos.Unsigned.to_uint_nonnil].
Qed.

Lemma digits_nil_empty (n : N) : digits n = NilEmpty.string_of_uint (N.to_uint n).
Proof.
  unfold digits, NilZero.string_of_uint.
  pose proof (to_uint_not_nil n) as H. destruct (N.to_uint n); congruence.
Qed.

(** Reading a zero-padded number back gives the number. *)
Lemma zfill_digits_read (width : nat) (n : N) :
  option_map N.of_uint (NilEmpty.uint_of_string (zfill width (digits n))) = Some n.
Proof.
  unfold zfill. generalize (width - String.length (digits n))%nat as k.
  induction k as [| k IH]; simpl.
  - rewrite digits_nil_empty, NilEmpty.usu. simpl.
    rewrite DecimalN.Unsigned.of_to. reflexivity.
  - destruct (NilEmpty.uint_of_string (zeros k ++ digits n)) as [d |]; simpl in *;
      [| discriminate].
    exact IH.
Qed.

Lemma zfill_digits_inj (width : nat) (n m : N) :
  zfill width (digits n) = zfill width (digits m) -> n = m.
Proof.
  intros H. pose proof (zfill_digits_read width n) as Hn.
  rewrite H, zfill_digits_read in Hn. congruence.
Qed.

Lemma zfill_digits_no_sign (width : nat) (n : N) (s : string) :
  zfill width (digits n) <> String "-" s.
Proof.
  intros H. pose proof (zfill_digits_read width n) as Hn.
  rewrite H in Hn. simpl in Hn.
  destruct (NilEmpty.uint_of_string s); discriminate.
Qed.

Lemma format_05d_inj (f g : Z) : format_05d f = format_05d g -> f = g.
Proof.
  unfold format_05d.
  destruct (Z.ltb_spec f 0) as [Hf | Hf], (Z.ltb_spec g 0) as [Hg | Hg]; intros H.
  - simpl in H. inversion H as [H']. apply zfill_digits_inj in H'. lia.
  - exfalso. symmetry in H. exact (zfill_digits_no_sign _ _ _ H).
  - exfalso. exact (zfill_digits_no_sign _ _ _ H).
  - apply zfill_digits_inj in H. lia.
Qed.

Lemma zfill_digits_first (width : nat) (n : N) (rest : string) :
  starts_with_sep (zfill width (digits n) ++ rest) = false.
Proof.
  unfold zfill. destruct (width - String.length (digits n))%nat as [| k]; simpl.
  - rewrite digits_nil_empty. pose proof (to_uint_not_nil n) as H.
    destruct (N.to_uint n); try congruence; reflexivity.
  - reflexivity.
Qed.

Lemma format_05d_first (f : Z) (rest : string) :
  starts_with_sep (format_05d f ++ rest) = false.
Proof.
  unfold format_05d. destruct (f <? 0); [reflexivity | apply zfill_digits_first].
Qed.

Lemma starts_with_sep_app (a b : string) :
  a <> "" -> starts_with_sep (a ++ b) = starts_with_sep a.
Proof. destruct a; [congruence | reflexivity]. Qed.

Lemma frame_file_eq (d prefix : string) (f g : Z) :
  frame_file d prefix f = frame_file d prefix g -> f = g.
Proof.
  intros H. unfold frame_file, path_join in H.
  assert (Hs : starts_with_sep (prefix ++ format_05d f ++ ".jpg")
               = starts_with_sep (prefix ++ format_05d g ++ ".jpg")).
  { destruct prefix as [| c prefix]; [| reflexivity].
    simpl. rewrite !format_05d_first. reflexivity. }
  rewrite <- Hs in H.
  assert (Hname : (prefix ++ format_05d f ++ ".jpg" = prefix ++ format_05d g ++ ".jpg")%string).
  { destruct (starts_with_sep (prefix ++ format_05d f ++ ".jpg")); [exact H |].
    match type of H with
    | (if ?c then _ else _) = _ => destruct c
    end; [apply string_app_inv_head in H; exact H |].
    apply string_app_inv_head in H. apply string_app_inv_head in H. exact H. }
  apply string_app_inv_head in Hname. apply string_app_inv_tail in Hname.
  apply format_05d_inj. exact Hname.
Qed.

(** X7.  The file a frame is saved to determines its number: for one output
    directory and one prefix, two frame numbers give the same path
    [out_dir/frames/<prefix><number:05d>.jpg] only when they are equal, also
    for numbers of more than five digits and for negative ones. *)
Theorem frame_file_inj :
  forall (d prefix : string) (f g : Z),
    frame_file d prefix f = frame_file d prefix g <-> f = g.
Proof.
  intros d prefix f g. split; [apply frame_file_eq | intros ->; reflexivity].
Qed.

Section MoreOfTheRun.

Context {image mesh : Type}.
Variable ext : Externals image mesh.
Variable args : Args.
Variable inp : input (image := image).

(** *** How long the loop runs *)

Lemma run_loop_length fuel (s : state) its s' fin :
  run_loop ext args inp fuel s = (its, s', fin) ->
  fin <> OutOfFuel ->
  (List.length its <= passes_left args inp s)%nat.
Proof.
  revert s its s' fin. induction fuel as [| fuel IH]; intros s its s' fin Hrun Hfin.
  - simpl in Hrun. inversion Hrun; subst. congruence.
  - rewrite run_loop_step in Hrun.
    destruct (loop_body ext args inp s) as [[sg s1] t] eqn:Hb.
    assert (Hgo : sg = Val tt \/ sg = Continue ->
                  forall its1 s2,
                    run_loop ext args inp fuel s1 = (its1, s2, fin) ->
                    (S (List.length its1) <= passes_left args inp s)%nat).
    { intros Hsg its1 s2 Hr.
      destruct (loop_body_progress _ _ _ _ _ _ _ Hb Hsg) as (_ & _ & Hlt).
      specialize (IH _ _ _ _ Hr Hfin). lia. }
    destruct sg as [[] | | | e].
    + destruct (run_loop ext args inp fuel s1) as [[its1 s2] fin1] eqn:Hr.
      inversion Hrun; subst. simpl. eapply Hgo; eauto.
    + destruct (run_loop ext args inp fuel s1) as [[its1 s2] fin1] eqn:Hr.
      inversion Hrun; subst. simpl. eapply Hgo; eauto.
    + inversion Hrun; subst. unfold passes_left. simpl. lia.
    + inversion Hrun; subst. unfold passes_left. simpl. lia.
Qed.

(** X1.  The loop of a run always ends, in the [break] or in an exception,
    after at most [max(0, end_frame - start_frame) + 1] passes, plus, for a
    video or a webcam, the [max(0, start_frame)] reads skipped to reach
    [start_frame]. *)
Theorem run_makes_boundedly_many_passes :
  run_final (run_hand_mocap ext args inp) <> OutOfFuel
  /\ Z.of_nat (List.length (run_passes (run_hand_mocap ext args inp)))
     <= (if is_stream inp then Z.max 0 (start_frame args) else 0)
        + Z.max 0 (end_frame args - start_frame args) + 1.
Proof.
  split; [apply run_hand_mocap_ends |].
  destruct (out_dir args) as [d |] eqn:Hd.
  - destruct (run_hand_mocap_loop ext args inp d Hd) as (s' & Hr & _ & _ & Hne).
    apply run_loop_length in Hr; [| exact Hne].
    unfold passes_left, initial_state in Hr. simpl in Hr.
    destruct (is_stream inp); lia.
  - rewrite (run_hand_mocap_no_out_dir _ _ _ Hd). simpl. destruct (is_stream inp); lia.
Qed.

(** *** The frames written to disk *)

Lemma written_frames_app (t1 t2 : list (@event image mesh)) :
  written_frames (t1 ++ t2) = written_frames t1 ++ written_frames t2.
Proof. unfold written_frames. apply flat_map_app. Qed.

Lemma late_events_write_nothing (t : list (@event image mesh)) :
  Forall (fun e => late_event e = true) t -> written_frames t = [].
Proof.
  induction 1 as [| e t He _ IH]; [reflexivity |].
  unfold written_frames in *. simpl. rewrite IH.
  destruct e; simpl in *; try reflexivity; discriminate.
Qed.

(** The first half of a pass writes at most the frame it loaded, and only
    for a capture with [save_frame] set. *)
Lemma select_written s sg s1 t :
  select_frame_and_boxes ext args inp s = (sg, s1, t) ->
  written_frames t = []
  \/ (exists d,
         out_dir args = Some d /\ is_stream inp = true /\ save_frame args = true
         /\ written_frames t = [frame_file d (frame_prefix inp) (cur_frame s)]
         /\ sg <> Continue).
Proof.
  intros H. unfold select_frame_and_boxes in H.
  cases_of H; tidy; try (left; reflexivity).
  all: right; eexists; repeat split; try reflexivity; try discriminate; auto.
Qed.

Lemma loop_body_written s sg s' t :
  loop_body ext args inp s = (sg, s', t) ->
  written_frames t = []
  \/ (exists d,
         out_dir args = Some d /\ is_stream inp = true /\ save_frame args = true
         /\ written_frames t = [frame_file d (frame_prefix inp) (cur_frame s)]
         /\ (sg = Val tt \/ sg = Continue -> cur_frame s' = cur_frame s + 1)).
Proof.
  intros H. apply loop_body_inv in H.
  destruct H as [(img & s1 & t1 & t2 & Hs & Hp & ->) | (sg0 & Hs & He)].
  - pose proof (select_val _ _ _ _ _ _ _ Hs) as (_ & _ & _ & _ & Hc & _).
    pose proof (process_frame_state _ _ _ _ _ _ _ Hp) as (Hc' & _ & _ & _ & _ & Hev).
    rewrite written_frames_app, (late_events_write_nothing _ Hev), app_nil_r.
    destruct (select_written _ _ _ _ Hs) as [Hw | (d & Hd & Hst & Hsv & Hw & _)];
      [left; exact Hw |].
    right. exists d. repeat split; auto. intros _. congruence.
  - destruct (select_written _ _ _ _ Hs) as [Hw | (d & Hd & Hst & Hsv & Hw & Hnc)];
      [left; exact Hw |].
    right. exists d. repeat split; auto.
    intros [-> | ->]; destruct sg0; simpl in He; try discriminate. congruence.
Qed.

Lemma run_loop_written fuel (s : state) its s' fin d :
  out_dir args = Some d ->
  run_loop ext args inp fuel s = (its, s', fin) ->
  Forall (fun path => exists f,
              cur_frame s <= f /\ path = frame_file d (frame_prefix inp) f
              /\ is_stream inp = true /\ save_frame args = true)
    (written_frames (trace_of its))
  /\ NoDup (written_frames (trace_of its)).
Proof.
  intros Hd. revert s its s' fin.
  induction fuel as [| fuel IH]; intros s its s' fin Hrun.
  - simpl in Hrun. inversion Hrun. split; constructor.
  - rewrite run_loop_step in Hrun.
    destruct (loop_body ext args inp s) as [[sg s1] t] eqn:Hb.
    assert (Hone : Forall (fun path => exists f,
                             cur_frame s <= f /\ path = frame_file d (frame_prefix inp) f
                             /\ is_stream inp = true /\ save_frame args = true)
                     (written_frames t) /\ NoDup (written_frames t)).
    { destruct (loop_body_written _ _ _ _ Hb) as [-> | (d' & Hd' & Hst & Hsv & -> & _)].
      - split; constructor.
      - assert (d' = d) by congruence. subst d'. split.
        + constructor; [| constructor]. exists (cur_frame s). repeat split; auto. lia.
        + constructor; [intros [] | constructor]. }
    assert (Hgo : sg = Val tt \/ sg = Continue ->
                  forall its1 s2 fin1,
                    run_loop ext args inp fuel s1 = (its1, s2, fin1) ->
                    Forall (fun path => exists f,
                                cur_frame s <= f
                                /\ path = frame_file d (frame_prefix inp) f
                                /\ is_stream inp = true /\ save_frame args = true)
                      (written_frames (t ++ trace_of its1))
                    /\ NoDup (written_frames (t ++ trace_of its1))).
    { intros Hsg its1 s2 fin1 Hr. destruct (IH _ _ _ _ Hr) as [Hall Hnd].
      destruct (loop_body_progress _ _ _ _ _ _ _ Hb Hsg) as (Hle & _).
      assert (Hall' : Forall (fun path => exists f,
                                 cur_frame s <= f
                                 /\ path = frame_file d (frame_prefix inp) f
                                 /\ is_stream inp = true /\ save_frame args = true)
                        (written_frames (trace_of its1))).
      { eapply Forall_impl; [| exact Hall].
        intros path (f & Hf & Hp). exists f. split; [lia | exact Hp]. }
      rewrite written_frames_app. split.
      - apply Forall_app. split; [apply Hone | exact Hall'].
      - destruct (loop_body_written _ _ _ _ Hb) as [-> | (d' & Hd' & Hst & Hsv & -> & Hc)].
        + exact Hnd.
        + assert (d' = d) by congruence. subst d'. simpl. constructor; [| exact Hnd].
          intros Hin. rewrite Forall_forall in Hall.
          destruct (Hall _ Hin) as (f & Hf & Heq & _).
          apply frame_file_eq in Heq. specialize (Hc Hsg). lia. }
    destruct sg as [[] | | | e].
    + destruct (run_loop ext args inp fuel s1) as [[its1 s2] fin1] eqn:Hr.
      inversion Hrun; subst. unfold trace_of. simpl. apply (Hgo (or_introl eq_refl) _ _ _ eq_refl).
    + destruct (run_loop ext args inp fuel s1) as [[its1 s2] fin1] eqn:Hr.
      inversion Hrun; subst. unfold trace_of. simpl. apply (Hgo (or_intror eq_refl) _ _ _ eq_refl).
    + inversion Hrun; subst. unfold trace_of. simpl. rewrite app_nil_r. exact Hone.
    + inversion Hrun; subst. unfold trace_of. simpl. rewrite app_nil_r. exact Hone.
Qed.

(** X8.  A run writes frame files only for a video or a webcam with
    [save_frame] set, each to [out_dir/frames/<prefix><frame:05d>.jpg] for a
    frame number from [start_frame] on, and it writes no file twice. *)
Theorem frames_are_written_once :
  NoDup (written_frames (run_trace (run_hand_mocap ext args inp)))
  /\ forall path,
       In path (written_frames (run_trace (run_hand_mocap ext args inp))) ->
       is_stream inp = true /\ save_frame args = true
       /\ exists d f,
            out_dir args = Some d /\ start_frame args <= f
            /\ path = frame_file d (frame_prefix inp) f.
Proof.
  assert (Htrace : written_frames (run_trace (run_hand_mocap ext args inp))
                   = written_frames (trace_of (run_passes (run_hand_mocap ext args inp)))).
  { unfold run_trace. rewrite !written_frames_app.
    assert (Hs : written_frames (run_setup (run_hand_mocap ext args inp)) = []).
    { unfold run_hand_mocap. destruct (out_dir args); [| reflexivity].
      destruct (run_loop ext args inp _ _) as [[its s'] fin]. reflexivity. }
    assert (Ha : written_frames (run_after (run_hand_mocap ext args inp)) = []).
    { rewrite run_hand_mocap_after.
      destruct (run_final (run_hand_mocap ext args inp)); try reflexivity.
      unfold after_loop. destruct (negb (no_video_out args) && is_stream inp);
        destruct inp as [| | | [c |] |]; reflexivity. }
    rewrite Hs, Ha, app_nil_r. reflexivity. }
  rewrite Htrace.
  destruct (out_dir args) as [d |] eqn:Hd.
  - destruct (run_hand_mocap_loop ext args inp d Hd) as (s' & Hr & _).
    destruct (run_loop_written _ _ _ _ _ d Hd Hr) as [Hall Hnd].
    split; [exact Hnd |]. intros path Hin. rewrite Forall_forall in Hall.
    destruct (Hall path Hin) as (f & Hf & Hp & Hst & Hsv).
    repeat split; auto. exists d, f. auto.
  - rewrite (run_hand_mocap_no_out_dir _ _ _ Hd). simpl.
    split; [constructor | intros path []].
Qed.

End MoreOfTheRun.

Section MoreOfThePass.

Context {image mesh : Type}.
Variable ext : Externals image mesh.
Variable args : Args.
Variable inp : input (image := image).

(** *** What reaches [regress] and what is saved *)

Lemma process_frame_regress img s sg s1 t i h m :
  process_frame ext args img s = (sg, s1, t) ->
  In (Regress i h m) t ->
  i = img /\ m = true /\ hand_bbox_list s = Some h /\ h <> []
  /\ reads s1 = reads s.
Proof.
  intros H Hin. unfold process_frame in H. cases_of H; tidy.
  all: try (exfalso; intuition discriminate).
  all: repeat match goal with
         | E : (len _ <? 1) = false |- _ => apply len_nonempty in E
         end.
  all: repeat match goal with
         | Hor : _ \/ _ |- _ => destruct Hor
         | Hf : False |- _ => destruct Hf
         | E : Regress _ _ _ = Regress _ _ _ |- _ => inversion E; subst; clear E
         | E : _ = Regress _ _ _ |- _ => discriminate E
         end.
  all: repeat split; auto.
Qed.

(** Whatever is saved is saved by a pass that runs to the end of the body. *)
Lemma process_frame_saves img s sg s1 t :
  process_frame ext args img s = (sg, s1, t) ->
  (exists d path r, In (SaveResImg d path r) t)
  \/ (exists ty path body hand preds, In (SavePredToPkl ty path body hand preds) t) ->
  sg = Val tt.
Proof.
  intros H Hin. unfold process_frame in H. cases_of H; tidy; try reflexivity.
  all: exfalso; destruct Hin as [(? & ? & ? & Hin) | (? & ? & ? & ? & ? & Hin)];
    simpl in Hin; intuition discriminate.
Qed.

Lemma in_frame_events_res init img hand body path joints d p r :
  In (SaveResImg d p r) (frame_events ext args init img hand body path joints) ->
  out_dir args = Some d /\ p = path
  /\ r = (if negb (no_display args)
          then astype_uint8 ext
                 (visualize ext img (extract_mesh_from_output ext (regress ext img hand)) hand)
          else visualize ext img (extract_mesh_from_output ext (regress ext img hand)) hand).
Proof.
  unfold frame_events. intros Hin.
  destruct init, (negb (no_display args)), (out_dir args), (save_pred_pkl args);
    simpl in Hin;
    repeat match goal with
      | Hor : _ \/ _ |- _ => destruct Hor
      | Hf : False |- _ => destruct Hf
      | E : SaveResImg _ _ _ = SaveResImg _ _ _ |- _ => inversion E; subst; clear E
      | E : _ = SaveResImg _ _ _ |- _ => discriminate E
      end; auto.
Qed.

Lemma in_frame_events_pkl init img hand body path joints ty p b h pr :
  In (SavePredToPkl ty p b h pr) (frame_events ext args init img hand body path joints) ->
  save_pred_pkl args = true /\ ty = "hand" /\ p = path /\ b = body /\ h = hand
  /\ pr = regress ext img hand.
Proof.
  unfold frame_events. intros Hin.
  destruct init, (negb (no_display args)), (out_dir args), (save_pred_pkl args);
    simpl in Hin;
    repeat match goal with
      | Hor : _ \/ _ |- _ => destruct Hor
      | Hf : False |- _ => destruct Hf
      | E : SavePredToPkl _ _ _ _ _ = SavePredToPkl _ _ _ _ _ |- _ =>
          inversion E; subst; clear E
      | E : _ = SavePredToPkl _ _ _ _ _ |- _ => discriminate E
      end; auto 8.
Qed.

Lemma early_events_save_nothing (t : list (@event image mesh)) :
  Forall (fun e => early_event e = true) t ->
  (forall d p r, ~ In (SaveResImg d p r) t)
  /\ (forall ty p b h pr, ~ In (SavePredToPkl ty p b h pr) t)
  /\ (forall i h m, ~ In (Regress i h m) t).
Proof.
  intros H. rewrite Forall_forall in H.
  repeat split; intros; intros Hin; apply H in Hin; discriminate Hin.
Qed.

(** A pass that saves something in its second half ran to the end, and its
    calls are those of [frame_events]. *)
Lemma loop_body_saves s sg s' t :
  loop_body ext args inp s = (sg, s', t) ->
  (exists d path r, In (SaveResImg d path r) t)
  \/ (exists ty path body hand preds, In (SavePredToPkl ty path body hand preds) t) ->
  exists img s1 t1 hand body path joints,
    sg = Val tt
    /\ select_frame_and_boxes ext args inp s = (Val img, s1, t1)
    /\ t = t1 ++ frame_events ext args (vis_initialized s1) img hand body path joints
    /\ hand <> [] /\ len hand = len body /\ len body = len (regress ext img hand).
Proof.
  intros H Hin. apply loop_body_inv in H.
  destruct H as [(img & s1 & t1 & t2 & Hs & Hp & ->) | (sg0 & Hs & _)].
  - pose proof (select_events _ _ _ _ _ _ _ Hs) as Hev.
    destruct (early_events_save_nothing _ Hev) as (Hno1 & Hno2 & _).
    assert (Hin2 : (exists d path r, In (SaveResImg d path r) t2)
                   \/ (exists ty path body hand preds,
                          In (SavePredToPkl ty path body hand preds) t2)).
    { destruct Hin as [(d & p & r & Hin) | (ty & p & b & h & pr & Hin)];
        apply in_app_or in Hin; destruct Hin as [Hin | Hin].
      - exfalso. eapply Hno1; eauto.
      - left. eauto.
      - exfalso. eapply Hno2; eauto.
      - right. eauto 6. }
    pose proof (process_frame_saves _ _ _ _ _ Hp Hin2) as ->.
    pose proof (process_frame_completed _ _ _ _ _ _ _ Hp)
      as (hand & body & path & first & rest & h & joints
          & _ & _ & _ & Hne & _ & _ & _ & Hl1 & Hl2 & ->).
    exists img, s1, t1, hand, body, path, joints. repeat split; auto.
  - pose proof (select_events _ _ _ _ _ _ _ Hs) as Hev.
    destruct (early_events_save_nothing _ Hev) as (Hno1 & Hno2 & _).
    exfalso. destruct Hin as [(d & p & r & Hin) | (ty & p & b & h & pr & Hin)].
    + eapply Hno1; eauto.
    + eapply Hno2; eauto.
Qed.

(** X5.  The result image that a pass saves is what [visualize] returned for
    the frame, cast to uint8 exactly when the display is on ([no_display]
    false): with [no_display] set the image is saved as the renderer
    returned it.  It goes to the output directory, and the pass ran to the
    end of the body. *)
Theorem saved_image_is_cast_only_when_displayed :
  forall s sg s' t d path r,
    loop_body ext args inp s = (sg, s', t) ->
    In (SaveResImg d path r) t ->
    sg = Val tt /\ out_dir args = Some d
    /\ exists img meshes hand,
         In (Visualize img meshes hand) t
         /\ r = (if no_display args
                 then visualize ext img meshes hand
                 else astype_uint8 ext (visualize ext img meshes hand))
         /\ (no_display args = false -> In (ImShow r) t).
Proof.
  intros s sg s' t d path r Hb Hin.
  destruct (loop_body_saves _ _ _ _ Hb) as
      (img & s1 & t1 & hand & body & path' & joints & -> & Hs & -> & _);
    [left; eauto |].
  pose proof (select_events _ _ _ _ _ _ _ Hs) as Hev.
  destruct (early_events_save_nothing _ Hev) as (Hno1 & _).
  apply in_app_or in Hin. destruct Hin as [Hin | Hin]; [exfalso; eapply Hno1; eauto |].
  destruct (in_frame_events_res _ _ _ _ _ _ _ _ _ Hin) as (Hd & -> & ->).
  split; [reflexivity |]. split; [exact Hd |].
  exists img, (extract_mesh_from_output ext (regress ext img hand)), hand.
  split; [| split].
  - apply in_or_app. right. unfold frame_events. simpl. auto 8.
  - destruct (no_display args); reflexivity.
  - intros Hnd. apply in_or_app. right. unfold frame_events. rewrite Hnd. simpl.
    auto 10.
Qed.

(** X6.  Every pkl that is saved holds consistent lists: the hand boxes that
    [regress] was called with, which are not empty, as many body boxes, and
    the predictions [regress] returned, again as many; the demo type is
    'hand'. *)
Theorem saved_pkl_lists_agree :
  forall s sg s' t ty path body hand preds,
    loop_body ext args inp s = (sg, s', t) ->
    In (SavePredToPkl ty path body hand preds) t ->
    ty = "hand" /\ save_pred_pkl args = true
    /\ hand <> [] /\ len hand = len body /\ len body = len preds
    /\ exists img, In (Regress img hand true) t /\ preds = regress ext img hand.
Proof.
  intros s sg s' t ty path body hand preds Hb Hin.
  destruct (loop_body_saves _ _ _ _ Hb) as
      (img & s1 & t1 & hand' & body' & path' & joints & -> & Hs & -> & Hne & Hl1 & Hl2);
    [right; eauto 6 |].
  pose proof (select_events _ _ _ _ _ _ _ Hs) as Hev.
  destruct (early_events_save_nothing _ Hev) as (_ & Hno2 & _).
  apply in_app_or in Hin. destruct Hin as [Hin | Hin]; [exfalso; eapply Hno2; eauto |].
  destruct (in_frame_events_pkl _ _ _ _ _ _ _ _ _ _ _ Hin)
    as (Hsv & -> & -> & -> & -> & ->).
  repeat split; auto.
  exists img. split; [| reflexivity].
  apply in_or_app. right. unfold frame_events. simpl. auto.
Qed.

End MoreOfThePass.

Section TheWindow.

Context {image mesh : Type}.
Variable ext : Externals image mesh.
Variable args : Args.
Variable inp : input (image := image).

(** *** The point-cloud window over a run *)

Lemma geometry_of_app (t1 t2 : list (@event image mesh)) :
  geometry_of (t1 ++ t2) = geometry_of t1 ++ geometry_of t2.
Proof. unfold geometry_of. apply filter_app. Qed.

Lemma early_events_draw_nothing (t : list (@event image mesh)) :
  Forall (fun e => early_event e = true) t -> geometry_of t = [].
Proof.
  induction 1 as [| e t He _ IH]; [reflexivity |].
  unfold geometry_of in *. simpl. rewrite IH.
  destruct e; simpl in *; try reflexivity; discriminate.
Qed.

Lemma select_window s sg s1 t :
  select_frame_and_boxes ext args inp s = (sg, s1, t) ->
  vis_initialized s1 = vis_initialized s.
Proof.
  intros H. unfold select_frame_and_boxes in H. cases_of H; reflexivity.
Qed.

(** The second half of a pass draws at most once: the first drawing of a
    window adds the geometry, every later one updates it. *)
Lemma process_frame_window img s sg s1 t :
  process_frame ext args img s = (sg, s1, t) ->
  (geometry_of t = [] /\ vis_initialized s1 = vis_initialized s)
  \/ (exists pts,
         geometry_of t
         = [if vis_initialized s then UpdateGeometry pts colors else AddGeometry pts colors]
         /\ vis_initialized s1 = true).
Proof.
  intros H. unfold process_frame in H. cases_of H; tidy.
  all: try (left; split; reflexivity).
  all: right; eexists;
    match goal with
    | E : negb (vis_initialized ?x) = _ |- _ =>
        destruct (vis_initialized x) eqn:?; simpl in E; try discriminate E
    end; simpl; split; try reflexivity; auto.
Qed.

Lemma loop_body_window s sg s' t :
  loop_body ext args inp s = (sg, s', t) ->
  (geometry_of t = [] /\ vis_initialized s' = vis_initialized s)
  \/ (exists pts,
         geometry_of t
         = [if vis_initialized s then UpdateGeometry pts colors else AddGeometry pts colors]
         /\ vis_initialized s' = true).
Proof.
  intros H. apply loop_body_inv in H.
  destruct H as [(img & s1 & t1 & t2 & Hs & Hp & ->) | (sg0 & Hs & _)].
  - pose proof (select_events _ _ _ _ _ _ _ Hs) as Hev.
    pose proof (select_window _ _ _ _ Hs) as Hv.
    rewrite geometry_of_app, (early_events_draw_nothing _ Hev). simpl.
    rewrite <- Hv. apply (process_frame_window _ _ _ _ _ Hp).
  - left. split.
    + apply early_events_draw_nothing. eapply select_events; eauto.
    + eapply select_window; eauto.
Qed.

Lemma run_loop_window fuel (s : state) its s' fin :
  run_loop ext args inp fuel s = (its, s', fin) ->
  if vis_initialized s
  then forallb is_update (geometry_of (trace_of its)) = true
  else geometry_of (trace_of its) = []
       \/ exists pts rest,
            geometry_of (trace_of its) = AddGeometry pts colors :: rest
            /\ forallb is_update rest = true.
Proof.
  revert s its s' fin. induction fuel as [| fuel IH]; intros s its s' fin Hrun.
  - simpl in Hrun. inversion Hrun; subst.
    destruct (vis_initialized s'); [reflexivity | left; reflexivity].
  - rewrite run_loop_step in Hrun.
    destruct (loop_body ext args inp s) as [[sg s1] t] eqn:Hb.
    pose proof (loop_body_window _ _ _ _ Hb) as Hw.
    assert (Hlast : if vis_initialized s
                    then forallb is_update (geometry_of t) = true
                    else geometry_of t = []
                         \/ exists pts rest,
                              geometry_of t = AddGeometry pts colors :: rest
                              /\ forallb is_update rest = true).
    { destruct Hw as [[-> _] | (pts & -> & _)]; destruct (vis_initialized s);
        simpl; eauto. }
    assert (Hgo : forall its1 s2 fin1,
               run_loop ext args inp fuel s1 = (its1, s2, fin1) ->
               if vis_initialized s
               then forallb is_update (geometry_of (t ++ trace_of its1)) = true
               else geometry_of (t ++ trace_of its1) = []
                    \/ exists pts rest,
                         geometry_of (t ++ trace_of its1) = AddGeometry pts colors :: rest
                         /\ forallb is_update rest = true).
    { intros its1 s2 fin1 Hr. specialize (IH _ _ _ _ Hr).
      rewrite geometry_of_app.
      destruct Hw as [[-> Hv] | (pts & -> & Hv)]; rewrite Hv in IH.
      - simpl. exact IH.
      - destruct (vis_initialized s); simpl.
        + exact IH.
        + right. exists pts, (geometry_of (trace_of its1)). auto. }
    destruct sg as [[] | | | e].
    + destruct (run_loop ext args inp fuel s1) as [[its1 s2] fin1] eqn:Hr.
      inversion Hrun; subst. unfold trace_of. simpl. apply (Hgo _ _ _ eq_refl).
    + destruct (run_loop ext args inp fuel s1) as [[its1 s2] fin1] eqn:Hr.
      inversion Hrun; subst. unfold trace_of. simpl. apply (Hgo _ _ _ eq_refl).
    + inversion Hrun; subst. unfold trace_of. simpl. rewrite app_nil_r. exact Hlast.
    + inversion Hrun; subst. unfold trace_of. simpl. rewrite app_nil_r. exact Hlast.
Qed.

(** X3.  Over a whole run the point cloud is added to the window exactly
    once, by the first frame that is drawn, and every later frame only
    updates it: the drawing calls of a run are none, or one [add_geometry]
    followed by [update_geometry] calls only. *)
Theorem geometry_is_added_once :
  geometry_of (run_trace (run_hand_mocap ext args inp)) = []
  \/ exists pts rest,
       geometry_of (run_trace (run_hand_mocap ext args inp))
       = AddGeometry pts colors :: rest
       /\ forallb is_update rest = true.
Proof.
  assert (Htrace : geometry_of (run_trace (run_hand_mocap ext args inp))
                   = geometry_of (trace_of (run_passes (run_hand_mocap ext args inp)))).
  { unfold run_trace. rewrite !geometry_of_app.
    assert (Hs : geometry_of (run_setup (run_hand_mocap ext args inp)) = []).
    { unfold run_hand_mocap. destruct (out_dir args); [| reflexivity].
      destruct (run_loop ext args inp _ _) as [[its s'] fin]. reflexivity. }
    assert (Ha : geometry_of (run_after (run_hand_mocap ext args inp)) = []).
    { rewrite run_hand_mocap_after.
      destruct (run_final (run_hand_mocap ext args inp)); try reflexivity.
      unfold after_loop. destruct (negb (no_video_out args) && is_stream inp);
        destruct inp as [| | | [c |] |]; reflexivity. }
    rewrite Hs, Ha, app_nil_r. reflexivity. }
  rewrite Htrace.
  destruct (out_dir args) as [d |] eqn:Hd.
  - destruct (run_hand_mocap_loop ext args inp d Hd) as (s' & Hr & _).
    apply run_loop_window in Hr. simpl in Hr. exact Hr.
  - rewrite (run_hand_mocap_no_out_dir _ _ _ Hd). left. reflexivity.
Qed.

End TheWindow.

Section Exceptions.

Context {image mesh : Type}.
Variable ext : Externals image mesh.
Variable args : Args.
Variable inp : input (image := image).

(** *** The exceptions of a run *)

Lemma py_index_none (A : Type) (l : list A) (i : Z) :
  py_index l i = None -> (i <? len l) = true -> i < - len l.
Proof.
  unfold py_index, len. intros H Hlt. apply Z.ltb_lt in Hlt.
  destruct ((0 <=? i) && (i <? Z.of_nat (List.length l))) eqn:H1.
  - apply nth_error_None in H. lia.
  - destruct ((- Z.of_nat (List.length l) <=? i) && (i <? 0)) eqn:H2.
    + apply andb_true_iff in H2. destruct H2 as [H2 H3].
      apply Z.leb_le in H2. apply Z.ltb_lt in H3.
      apply nth_error_None in H. lia.
    + apply andb_false_iff in H1. apply andb_false_iff in H2.
      destruct H1 as [H1 | H1], H2 as [H2 | H2];
        try apply Z.leb_gt in H1; try apply Z.ltb_ge in H1;
        try apply Z.leb_gt in H2; try apply Z.ltb_ge in H2; lia.
Qed.

Lemma py_index_0_none (A : Type) (l : list A) : py_index l 0 = None -> len l = 0.
Proof. destruct l; [reflexivity | discriminate]. Qed.

Lemma select_raises s e s1 t :
  select_frame_and_boxes ext args inp s = (Raise e, s1, t) ->
  out_dir args <> None ->
  (forall img hand add_margin, ~ In (Regress img hand add_margin) t)
  /\ match e with
     | AssertionError msg =>
         (msg = "Unknown input_type" /\ exists input_type, inp = other_input input_type)
         \/ (msg = "" /\ String.eqb (crop_type args) "hand_crop" = false
             /\ String.eqb (crop_type args) "no_crop" = false
             /\ is_bbox_dir inp = false)
     | UnboundLocalError name =>
         name = "body_bbox_list"
         /\ String.eqb (crop_type args) "hand_crop" = true /\ is_bbox_dir inp = false
     | IndexError => is_directory inp = true /\ cur_frame s < - input_length inp
     | AttributeError => inp = webcam None
     | KeyError _ | TypeError | RuntimeError => False
     end.
Proof.
  intros H Hout. split.
  { intros img hand m Hin. apply select_events in H. rewrite Forall_forall in H.
    apply H in Hin. discriminate Hin. }
  unfold select_frame_and_boxes in H.
  cases_of H; tidy; auto; try congruence; try discriminate; eauto.
  all: try (split; [reflexivity | apply py_index_none; assumption]).
Qed.

Lemma process_raises img s e s1 t :
  process_frame ext args img s = (Raise e, s1, t) ->
  image_path s <> None -> hand_bbox_list s <> None ->
  match e with
  | AssertionError msg => msg = "" /\ exists hand, In (Regress img hand true) t
  | UnboundLocalError name => name = "body_bbox_list" /\ body_bbox_list s = None
  | KeyError key =>
      exists first,
        first_prediction ext t first
        /\ ((key = "left_hand" /\ left_hand first = Missing)
            \/ (key = "pred_joints_smpl"
                /\ exists h, left_hand first = Bound h /\ pred_joints_smpl h = Missing))
  | TypeError => exists first, first_prediction ext t first /\ left_hand first = PyNone
  | RuntimeError =>
      exists first h,
        first_prediction ext t first
        /\ left_hand first = Bound h /\ pred_joints_smpl h = PyNone
  | IndexError | AttributeError => False
  end.
Proof.
  intros H Hp Hh. unfold process_frame in H.
  cases_of H; tidy; auto; try congruence.
  all: repeat match goal with
         | E : py_index _ 0 = Some _ |- _ => apply py_index_0 in E; destruct E as [? E]
         end.
  all: unfold first_prediction.
  all: try (split; [reflexivity | eexists; left; reflexivity]).
  all: try (eexists; split; [do 3 eexists; split; [left; reflexivity | eassumption] |]; eauto 6).
  all: try (do 2 eexists; split; [do 3 eexists; split; [left; reflexivity | eassumption] |]; eauto).
  all: repeat match goal with
         | E : (_ =? _) = true |- _ => apply Z.eqb_eq in E
         | E : (_ <? _) = false |- _ => apply Z.ltb_ge in E
         | E : py_index _ 0 = None |- _ => apply py_index_0_none in E
         end; lia.
Qed.


Lemma loop_body_raises s e s' t :
  loop_body ext args inp s = (Raise e, s', t) ->
  out_dir args <> None ->
  match e with
  | AssertionError msg =>
      (msg = "Unknown input_type" /\ exists input_type, inp = other_input input_type)
      \/ (msg = "" /\ crop_type args <> "hand_crop" /\ crop_type args <> "no_crop"
          /\ is_bbox_dir inp = false)
      \/ (msg = "" /\ exists img hand, In (Regress img hand true) t)
  | UnboundLocalError name =>
      name = "body_bbox_list" /\ crop_type args = "hand_crop" /\ is_bbox_dir inp = false
  | IndexError =>
      is_directory inp = true /\ cur_frame s < - input_length inp
      /\ forall img hand add_margin, ~ In (Regress img hand add_margin) t
  | KeyError key =>
      exists first,
        first_prediction ext t first
        /\ ((key = "left_hand" /\ left_hand first = Missing)
            \/ (key = "pred_joints_smpl"
                /\ exists h, left_hand first = Bound h /\ pred_joints_smpl h = Missing))
  | TypeError => exists first, first_prediction ext t first /\ left_hand first = PyNone
  | RuntimeError =>
      exists first h,
        first_prediction ext t first
        /\ left_hand first = Bound h /\ pred_joints_smpl h = PyNone
  | AttributeError => inp = webcam None
  end.
Proof.
  intros H Hout. apply loop_body_inv in H.
  destruct H as [(img & s1 & t1 & t2 & Hs & Hp & ->) | (sg0 & Hs & He)].
  - pose proof (select_val _ _ _ _ _ _ _ Hs)
      as (path & hand & s0 & Hl & _ & _ & _ & _ & Hpath & Hh & _ & Hbox & _).
    assert (H1 : image_path s1 <> None) by congruence.
    assert (H2 : hand_bbox_list s1 <> None) by congruence.
    pose proof (process_raises _ _ _ _ _ Hp H1 H2) as Hr.
    assert (Hfirst : forall first, first_prediction ext t2 first ->
                                   first_prediction ext (t1 ++ t2) first).
    { intros first (i & h & r & Hin & Hreg). exists i, h, r.
      split; [apply in_or_app; right; exact Hin | exact Hreg]. }
    destruct e; simpl in Hr; try contradiction.
    + destruct Hr as (-> & hand' & Hin). right. right. split; [reflexivity |].
      exists img, hand'. apply in_or_app. right. exact Hin.
    + destruct Hr as [-> Hn]. split; [reflexivity |].
      destruct (is_bbox_dir inp) eqn:Hb.
      * exfalso. destruct Hbox as [_ Hbody].
        apply load_data_val in Hl. destruct Hl as (_ & Hlb & _).
        destruct (Hlb eq_refl) as (h0 & b0 & _ & Hb0). congruence.
      * destruct (String.eqb (crop_type args) "hand_crop") eqn:Hc.
        -- apply String.eqb_eq in Hc. auto.
        -- exfalso. destruct Hbox as (_ & _ & Hbody). congruence.
    + destruct Hr as (first & Hf & Hk). exists first. auto.
    + destruct Hr as (first & Hf & Hk). exists first. auto.
    + destruct Hr as (first & h & Hf & Hk). exists first, h. auto.
  - destruct sg0; simpl in He; try discriminate. inversion He; subst.
    pose proof (select_raises _ _ _ _ Hs Hout) as [Hno Hr].
    destruct e; simpl in Hr; auto; try contradiction.
    + destruct Hr as [Hr | (-> & H1 & H2 & H3)]; [left; exact Hr |].
      right. left. apply String.eqb_neq in H1. apply String.eqb_neq in H2. auto.
    + destruct Hr as (-> & Hc & Hb). apply String.eqb_eq in Hc. auto.
    + destruct Hr as [Hd Hlt]. auto.
Qed.

Lemma py_index_some (A : Type) (l : list A) (i : Z) (x : A) :
  py_index l i = Some x -> - len l <= i < len l.
Proof.
  unfold py_index, len. intros H.
  destruct ((0 <=? i) && (i <? Z.of_nat (List.length l))) eqn:H1.
  - apply andb_true_iff in H1. destruct H1 as [H1 H2].
    apply Z.leb_le in H1. apply Z.ltb_lt in H2. lia.
  - destruct ((- Z.of_nat (List.length l) <=? i) && (i <? 0)) eqn:H2; [| discriminate].
    apply andb_true_iff in H2. destruct H2 as [H2 H3].
    apply Z.leb_le in H2. apply Z.ltb_lt in H3. lia.
Qed.

(** A frame of a directory that loads has an index that exists. *)
Lemma load_data_directory s img load_bbox s0 t0 :
  is_directory inp = true ->
  load_data ext args inp s = (Val (Some img, load_bbox), s0, t0) ->
  - input_length inp <= cur_frame s < input_length inp.
Proof.
  intros Hd H. destruct inp as [l | l | c | c | ty]; try discriminate Hd.
  all: cases_of H; tidy;
    match goal with
    | E : py_index _ _ = Some _ |- _ => apply py_index_some in E; exact E
    end.
Qed.

Lemma loop_body_directory s sg s' t :
  is_directory inp = true ->
  loop_body ext args inp s = (sg, s', t) ->
  sg = Val tt \/ sg = Continue ->
  - input_length inp <= cur_frame s.
Proof.
  intros Hd H Hsg. apply loop_body_inv in H.
  destruct H as [(img & s1 & t1 & t2 & Hs & Hp & ->) | (sg0 & Hs & He)].
  - pose proof (select_val _ _ _ _ _ _ _ Hs) as (path & hand & s0 & Hl & _).
    apply (load_data_directory _ _ _ _ _ Hd) in Hl. lia.
  - destruct Hsg as [-> | ->]; destruct sg0; simpl in He; try discriminate.
    apply select_continue in Hs. apply load_data_continue in Hs.
    destruct Hs as (Hs & _). destruct inp; discriminate.
Qed.

(** The IndexError can only come from [input_data[cur_frame]], in the first
    pass of the loop. *)
Lemma run_loop_index_error fuel (s : state) its s' :
  run_loop ext args inp fuel s = (its, s', Crashed IndexError) ->
  out_dir args <> None ->
  is_directory inp = true /\ cur_frame s < - input_length inp
  /\ forall img hand add_margin, ~ In (Regress img hand add_margin) (trace_of its).
Proof.
  intros Hrun Hout. revert s its s' Hrun.
  induction fuel as [| fuel IH]; intros s its s' Hrun.
  - simpl in Hrun. inversion Hrun.
  - rewrite run_loop_step in Hrun.
    destruct (loop_body ext args inp s) as [[sg s1] t] eqn:Hb.
    assert (Hgo : sg = Val tt \/ sg = Continue ->
                  forall its1 s2, run_loop ext args inp fuel s1
                                  = (its1, s2, Crashed IndexError) -> False).
    { intros Hsg its1 s2 Hr. destruct (IH _ _ _ Hr) as (Hd & Hlt & _).
      pose proof (loop_body_directory _ _ _ _ Hd Hb Hsg) as Hge.
      destruct (loop_body_progress _ _ _ _ _ _ _ Hb Hsg) as (Hle & _). lia. }
    destruct sg as [[] | | | e].
    + destruct (run_loop ext args inp fuel s1) as [[its1 s2] fin1] eqn:Hr.
      inversion Hrun; subst. exfalso. eapply Hgo; eauto.
    + destruct (run_loop ext args inp fuel s1) as [[its1 s2] fin1] eqn:Hr.
      inversion Hrun; subst. exfalso. eapply Hgo; eauto.
    + inversion Hrun.
    + inversion Hrun; subst.
      pose proof (loop_body_raises _ _ _ _ Hb Hout) as Hr. simpl in Hr.
      destruct Hr as (Hd & Hlt & Hno). repeat split; auto.
      unfold trace_of. simpl. rewrite app_nil_r. exact Hno.
Qed.

Lemma run_trace_passes (e : @event image mesh) :
  In e (trace_of (run_passes (run_hand_mocap ext args inp))) ->
  In e (run_trace (run_hand_mocap ext args inp)).
Proof.
  intros H. unfold run_trace. apply in_or_app. right. apply in_or_app. left. exact H.
Qed.

Lemma run_trace_regress img hand add_margin :
  In (Regress img hand add_margin) (run_trace (run_hand_mocap ext args inp)) ->
  In (Regress img hand add_margin) (trace_of (run_passes (run_hand_mocap ext args inp))).
Proof.
  unfold run_trace. intros H.
  apply in_app_or in H. destruct H as [H | H].
  - exfalso. unfold run_hand_mocap in H. destruct (out_dir args).
    + destruct (run_loop ext args inp _ _) as [[its s'] fin]. simpl in H.
      destruct H as [H | [H | []]]; discriminate H.
    + simpl in H. destruct H as [H | [H | []]]; discriminate H.
  - apply in_app_or in H. destruct H as [H | H]; [exact H |].
    exfalso. rewrite run_hand_mocap_after in H.
    destruct (run_final (run_hand_mocap ext args inp)); try destruct H.
    unfold after_loop in H.
    destruct (negb (no_video_out args) && is_stream inp);
      destruct inp as [| | | [c |] |]; simpl in H;
      repeat (destruct H as [H | H]; [discriminate H |]); destruct H.
Qed.

Lemma in_trace_of (p : @iteration image mesh) its e :
  In p its -> In e (it_events p) -> In e (trace_of its).
Proof.
  intros Hp He. unfold trace_of. apply in_flat_map. exists p. auto.
Qed.

(** X4.  With the wrapped components returning normally and the items of a
    'bbox_dir' input carrying their three keys, a run can end in these
    exceptions only, each from one place.  An AssertionError: for a missing
    output directory, for an unknown input type, for a crop type that is
    neither 'hand_crop' nor 'no_crop' with an input that is not a 'bbox_dir',
    or, with an empty message, after a call of [regress].  The
    UnboundLocalError for [body_bbox_list], which takes crop type 'hand_crop'
    and an input that is not a 'bbox_dir'.  An IndexError, which takes a
    directory input and a [start_frame] below minus its length, in a run that
    never called [regress]: [pred_output_list[0]] never fails.  A KeyError
    for 'left_hand' or for 'pred_joints_smpl', when the first prediction that
    a call of [regress] returned lacks the key; a TypeError, when its
    'left_hand' is None; a RuntimeError, when its 'pred_joints_smpl' is None.
    An AttributeError, which takes a webcam that is None. *)
Theorem exceptions_of_a_run :
  forall e,
    run_final (run_hand_mocap ext args inp) = Crashed e ->
    possible_exception ext args inp e.
Proof.
  intros e Hfin.
  pose proof (run_hand_mocap_final ext args inp) as Hlast. rewrite Hfin in Hlast.
  destruct Hlast as [Hnone | (front & lp & Heq & _ & Hflow)].
  - rewrite (run_hand_mocap_no_out_dir _ _ _ Hnone) in Hfin.
    inversion Hfin. left. auto.
  - pose proof (run_hand_mocap_passes ext args inp
                  (fun s => start_frame args <= cur_frame s) (Z.le_refl _)) as Hall.
    assert (Hstep : forall s sg s1 t,
               start_frame args <= cur_frame s ->
               loop_body ext args inp s = (sg, s1, t) ->
               sg = Val tt \/ sg = Continue -> start_frame args <= cur_frame s1).
    { intros s sg s1 t Hs Hb Hsg.
      destruct (loop_body_progress _ _ _ _ _ _ _ Hb Hsg) as (Hle & _). lia. }
    specialize (Hall Hstep). rewrite Forall_forall in Hall.
    assert (Hin : In lp (run_passes (run_hand_mocap ext args inp))).
    { rewrite Heq. apply in_or_app. right. left. reflexivity. }
    destruct (Hall lp Hin) as (s & sg & s1 & Hs & Hout & _ & Hb & Hfl).
    rewrite Hflow in Hfl. destruct sg as [[] | | | e']; simpl in Hfl; try discriminate.
    inversion Hfl; subst e'.
    pose proof (loop_body_raises _ _ _ _ Hb Hout) as Hr.
    assert (Hlift : forall ev, In ev (it_events lp) ->
                               In ev (run_trace (run_hand_mocap ext args inp))).
    { intros ev Hev. apply run_trace_passes. eapply in_trace_of; eauto. }
    assert (Hfirst : forall first,
               first_prediction ext (it_events lp) first ->
               first_prediction ext (run_trace (run_hand_mocap ext args inp)) first).
    { intros first (i & h & r & Hi & Hreg). exists i, h, r. auto. }
    unfold possible_exception. destruct e; simpl in Hr; cbv zeta.
    + destruct Hr as [Hr | [Hr | (-> & i & h & Hi)]]; auto.
      right. right. right. split; [reflexivity |]. exists i, h. auto.
    + exact Hr.
    + assert (Hd : exists d, out_dir args = Some d)
        by (destruct (out_dir args); [eauto | congruence]).
      destruct Hd as [d Hd].
      destruct (run_hand_mocap_loop ext args inp d Hd) as (s2 & Hrun & _).
      rewrite Hfin in Hrun.
      destruct (run_loop_index_error _ _ _ _ Hrun Hout) as (Hdir & Hlt & Hno).
      unfold initial_state in Hlt. simpl in Hlt. repeat split; auto.
      intros i h m Hi. apply run_trace_regress in Hi. eapply Hno; eauto.
    + destruct Hr as (first & Hf & Hk). exists first. auto.
    + destruct Hr as (first & Hf & Hk). exists first. auto.
    + exact Hr.
    + destruct Hr as (first & h & Hf & Hk). exists first, h. auto.
Qed.

End Exceptions.

Section DataFlow.

Context {image mesh : Type}.
Variable ext : Externals image mesh.
Variable args : Args.

(** *** From the input to [regress] *)

Lemma select_source inp s img s1 t hand :
  select_frame_and_boxes ext args inp s = (Val img, s1, t) ->
  hand_bbox_list s1 = Some hand ->
  frame_source ext args inp s img hand.
Proof.
  intros H Hh. unfold select_frame_and_boxes in H.
  cases_of H; tidy; unfold frame_source, boxes_of_frame.
  all: repeat match goal with
         | E : (_ =? _)%string = true |- _ => apply String.eqb_eq in E
         | E : shape _ _ = _ |- _ => rewrite E
         end; simpl; eauto 8.
Qed.

Lemma loop_body_regress inp s sg s' t img hand add_margin :
  loop_body ext args inp s = (sg, s', t) ->
  In (Regress img hand add_margin) t ->
  add_margin = true /\ hand <> [] /\ frame_source ext args inp s img hand.
Proof.
  intros H Hin. apply loop_body_inv in H.
  destruct H as [(img' & s1 & t1 & t2 & Hs & Hp & ->) | (sg0 & Hs & _)].
  - pose proof (select_events _ _ _ _ _ _ _ Hs) as Hev.
    destruct (early_events_save_nothing _ Hev) as (_ & _ & Hno).
    apply in_app_or in Hin. destruct Hin as [Hin | Hin]; [exfalso; eapply Hno; eauto |].
    destruct (process_frame_regress _ _ _ _ _ _ _ _ _ _ Hp Hin)
      as (-> & -> & Hh & Hne & _).
    repeat split; auto. eapply select_source; eauto.
  - pose proof (select_events _ _ _ _ _ _ _ Hs) as Hev.
    destruct (early_events_save_nothing _ Hev) as (_ & _ & Hno).
    exfalso. eapply Hno; eauto.
Qed.

(** X9.  The image [regress] is called with is the frame loaded in this pass
    from the input at the current position, and the boxes are those of that
    frame: the preloaded ones of the same 'bbox_dir' item, or the box around
    the whole image under 'hand_crop', or what [detect_hand_bbox] returned
    for this very image under 'no_crop'.  The list is never empty and
    [add_margin] is always set. *)
Theorem regress_gets_the_frame_and_its_boxes :
  forall inp s sg s' t img hand add_margin,
    loop_body ext args inp s = (sg, s', t) ->
    In (Regress img hand add_margin) t ->
    add_margin = true /\ hand <> [] /\ frame_source ext args inp s img hand.
Proof.
  intros inp s sg s' t img hand m. apply loop_body_regress.
Qed.

(** *** The frames of a capture *)

Lemma loop_body_capture inp cap s sg s' t :
  inp = video cap \/ inp = webcam (Some cap) ->
  loop_body ext args inp s = (sg, s', t) ->
  out_dir args <> None ->
  capture_in_step args s ->
  (sg = Val tt \/ sg = Continue -> capture_in_step args s')
  /\ forall n,
       In (CapRead n) t ->
       n = reads s
       /\ ((Z.of_nat n < start_frame args /\ cur_frame s = start_frame args
            /\ sg = Continue /\ t = [CapRead n])
           \/ Z.of_nat n = cur_frame s).
Proof.
  intros Hinp H Hout (Hr & Hle & Hst). apply loop_body_inv in H.
  destruct H as [(img & s1 & t1 & t2 & Hs & Hp & ->) | (sg0 & Hs & He)].
  - destruct (select_capture _ _ _ _ _ _ _ _ Hinp Hs Hout) as (Hrd & (t' & -> & Hno) & Hcase).
    pose proof (process_frame_state _ _ _ _ _ _ _ Hp) as (Hc' & Hv' & _ & _ & _ & Hev).
    pose proof (process_frame_reads _ _ _ _ _ _ _ Hp) as Hr'.
    destruct (video_frame s <? cur_frame s) eqn:Hskip.
    + destruct Hcase as [Hcase _]. discriminate Hcase.
    + apply Z.ltb_ge in Hskip. destruct Hcase as [_ Hcase].
      destruct (Hcase img eq_refl) as [Hv Hc].
      split.
      * intros _. unfold capture_in_step. rewrite Hr', Hrd, Hv', Hv, Hc', Hc.
        repeat split; lia.
      * intros n Hin. simpl in Hin. destruct Hin as [Hin | Hin].
        -- inversion Hin; subst. split; [reflexivity |]. right. lia.
        -- exfalso. apply in_app_or in Hin. destruct Hin as [Hin | Hin].
           ++ eapply Hno; eauto.
           ++ rewrite Forall_forall in Hev. apply Hev in Hin. discriminate Hin.
  - destruct (select_capture _ _ _ _ _ _ _ _ Hinp Hs Hout) as (Hrd & (t' & -> & Hno) & Hcase).
    destruct (video_frame s <? cur_frame s) eqn:Hskip.
    + apply Z.ltb_lt in Hskip. destruct Hcase as (-> & Ht & Hv & Hc).
      simpl in He. inversion He; subst sg. split.
      * intros _. unfold capture_in_step. rewrite Hrd, Hv, Hc. repeat split; lia.
      * intros n Hin. inversion Ht; subst t'. simpl in Hin.
        destruct Hin as [Hin | []]. inversion Hin; subst.
        split; [reflexivity |]. left. repeat split; auto. rewrite <- (Hst Hskip). lia.
    + apply Z.ltb_ge in Hskip. destruct Hcase as [Hnc _]. split.
      * intros [-> | ->]; destruct sg0; simpl in He; try discriminate. congruence.
      * intros n Hin. simpl in Hin. destruct Hin as [Hin | Hin].
        -- inversion Hin; subst. split; [reflexivity |]. right. lia.
        -- exfalso. eapply Hno; eauto.
Qed.

(** X2.  Over a video or a webcam with [start_frame >= 0], a pass that makes
    read number [n] of the capture (counting from 0) is of one of two kinds.
    Either [n < start_frame]: the read is dropped by the [continue], whatever
    it delivered; the pass makes no other call and [cur_frame] is still
    [start_frame].  Or [n] is the frame number of the pass: the image that
    [regress] gets under the frame number [n] is the [n]-th frame of the
    capture. *)
Theorem capture_frames_keep_their_number :
  forall inp cap p n,
    inp = video cap \/ inp = webcam (Some cap) ->
    0 <= start_frame args ->
    In p (run_passes (run_hand_mocap ext args inp)) ->
    In (CapRead n) (it_events p) ->
    (Z.of_nat n < start_frame args /\ it_frame p = start_frame args
     /\ it_flow p = Continued /\ it_events p = [CapRead n])
    \/ (Z.of_nat n = it_frame p
        /\ forall img hand add_margin,
             In (Regress img hand add_margin) (it_events p) -> cap n = Some img).
Proof.
  intros inp cap p n Hinp Hstart Hin Hread.
  pose proof (run_hand_mocap_passes ext args inp (capture_in_step args)) as Hall.
  assert (Hinit : capture_in_step args (initial_state args)).
  { unfold capture_in_step, initial_state. simpl. repeat split; auto; lia. }
  assert (Hstep : forall s sg s1 t,
             capture_in_step args s ->
             loop_body ext args inp s = (sg, s1, t) ->
             sg = Val tt \/ sg = Continue -> capture_in_step args s1).
  { intros s sg s1 t Hs Hb Hsg.
    destruct (out_dir args) as [d |] eqn:Hd.
    - assert (Hout : out_dir args <> None) by congruence.
      destruct (loop_body_capture _ _ _ _ _ _ Hinp Hb Hout Hs) as [Hgo _]. auto.
    - exfalso. clear Hall Hinit.
      rewrite (run_hand_mocap_no_out_dir _ _ _ Hd) in Hin. destruct Hin. }
  specialize (Hall Hinit Hstep). rewrite Forall_forall in Hall.
  destruct (Hall p Hin) as (s & sg & s1 & Hs & Hout & Hfr & Hb & Hfl).
  destruct (loop_body_capture _ _ _ _ _ _ Hinp Hb Hout Hs) as [_ Hreads].
  destruct (Hreads n Hread) as [Hn [(Hlt & Hc & -> & Ht) | Heq]].
  - left. rewrite Hfr, Hfl. auto.
  - right. split; [congruence |].
    intros img hand m Hreg.
    destruct (loop_body_regress _ _ _ _ _ _ _ _ Hb Hreg)
      as (_ & _ & Hsrc).
    unfold frame_source in Hsrc.
    destruct Hinp as [-> | ->]; destruct Hsrc as (Hcap & _); congruence.
Qed.

End DataFlow.

Section FramesInOrder.

Context {image mesh : Type}.
Variable ext : Externals image mesh.
Variable args : Args.
Variable inp : input (image := image).

(** *** The frames of a directory, in order *)

Lemma loop_body_next_frame s sg s' t :
  is_stream inp = false ->
  loop_body ext args inp s = (sg, s', t) ->
  sg = Val tt \/ sg = Continue ->
  cur_frame s' = cur_frame s + 1.
Proof.
  intros Hst H Hsg. apply loop_body_inv in H.
  destruct H as [(img & s1 & t1 & t2 & Hs & Hp & ->) | (sg0 & Hs & He)].
  - pose proof (select_val _ _ _ _ _ _ _ Hs) as (_ & _ & _ & _ & Hc & _).
    pose proof (process_frame_state _ _ _ _ _ _ _ Hp) as (Hc' & _). congruence.
  - destruct Hsg as [-> | ->]; destruct sg0; simpl in He; try discriminate.
    apply select_continue in Hs. apply load_data_continue in Hs.
    destruct Hs as (Hs & _). congruence.
Qed.

Lemma run_loop_in_order fuel (s : state) its s' fin :
  is_stream inp = false ->
  run_loop ext args inp fuel s = (its, s', fin) ->
  map it_frame its
  = map (fun i => cur_frame s + Z.of_nat i) (seq 0 (List.length its)).
Proof.
  intros Hst. revert s its s' fin.
  induction fuel as [| fuel IH]; intros s its s' fin Hrun.
  - simpl in Hrun. inversion Hrun. reflexivity.
  - rewrite run_loop_step in Hrun.
    destruct (loop_body ext args inp s) as [[sg s1] t] eqn:Hb.
    assert (Hgo : sg = Val tt \/ sg = Continue ->
                  forall its1 s2 fin1,
                    run_loop ext args inp fuel s1 = (its1, s2, fin1) ->
                    cur_frame s :: map it_frame its1
                    = map (fun i => cur_frame s + Z.of_nat i)
                        (seq 0 (S (List.length its1)))).
    { intros Hsg its1 s2 fin1 Hr.
      rewrite (IH _ _ _ _ Hr), (loop_body_next_frame _ _ _ _ Hst Hb Hsg).
      simpl. f_equal; [lia |].
      rewrite <- seq_shift, map_map. apply map_ext. intros i. lia. }
    destruct sg as [[] | | | e].
    + destruct (run_loop ext args inp fuel s1) as [[its1 s2] fin1] eqn:Hr.
      inversion Hrun; subst. simpl map at 1. simpl List.length.
      apply (Hgo (or_introl eq_refl) _ _ _ eq_refl).
    + destruct (run_loop ext args inp fuel s1) as [[its1 s2] fin1] eqn:Hr.
      inversion Hrun; subst. simpl map at 1. simpl List.length.
      apply (Hgo (or_intror eq_refl) _ _ _ eq_refl).
    + inversion Hrun; subst. simpl. f_equal. lia.
    + inversion Hrun; subst. simpl. f_equal. lia.
Qed.

(** X10.  With an 'image_dir' or a 'bbox_dir' input the passes of a run visit
    the frame numbers [start_frame], [start_frame + 1], ... in order, one
    pass each, with no gap and no repetition, also past frames with no
    hand. *)
Theorem directory_frames_are_visited_in_order :
  is_stream inp = false ->
  map it_frame (run_passes (run_hand_mocap ext args inp))
  = map (fun i => start_frame args + Z.of_nat i)
      (seq 0 (List.length (run_passes (run_hand_mocap ext args inp)))).
Proof.
  intros Hst. destruct (out_dir args) as [d |] eqn:Hd.
  - destruct (run_hand_mocap_loop ext args inp d Hd) as (s' & Hr & _).
    apply (run_loop_in_order _ _ _ _ _ Hst Hr).
  - rewrite (run_hand_mocap_no_out_dir _ _ _ Hd). reflexivity.
Qed.

End FramesInOrder.

(** ** Concrete runs for the further properties *)

Lemma capture_frames_keep_their_number_witness :
  (Z.of_nat 1 < start_frame (Sample.with_start_frame 1 Sample.args)
   /\ it_frame
        (Sample.second_pass
           (run_hand_mocap Sample.ext (Sample.with_start_frame 1 Sample.args)
              (webcam (Some Sample.camera))))
      = start_frame (Sample.with_start_frame 1 Sample.args)
   /\ it_flow
        (Sample.second_pass
           (run_hand_mocap Sample.ext (Sample.with_start_frame 1 Sample.args)
              (webcam (Some Sample.camera))))
      = Continued
   /\ it_events
        (Sample.second_pass
           (run_hand_mocap Sample.ext (Sample.with_start_frame 1 Sample.args)
              (webcam (Some Sample.camera))))
      = [CapRead 1])
  \/ (Z.of_nat 1
      = it_frame
          (Sample.second_pass
             (run_hand_mocap Sample.ext (Sample.with_start_frame 1 Sample.args)
                (webcam (Some Sample.camera))))
      /\ forall img hand add_margin,
           In (Regress img hand add_margin)
              (it_events
                 (Sample.second_pass
                    (run_hand_mocap Sample.ext (Sample.with_start_frame 1 Sample.args)
                       (webcam (Some Sample.camera))))) ->
           Sample.camera 1%nat = Some img).
Proof.
  apply (capture_frames_keep_their_number Sample.ext
           (Sample.with_start_frame 1 Sample.args) (webcam (Some Sample.camera))
           Sample.camera).
  - right. reflexivity.
  - vm_compute. discriminate.
  - vm_compute. right. left. reflexivity.
  - vm_compute. left. reflexivity.
Defined.

Lemma exceptions_of_a_run_witness :
  possible_exception Sample.ext Sample.hand_crop_args Sample.three_images
    (UnboundLocalError "body_bbox_list").
Proof.
  apply (exceptions_of_a_run Sample.ext Sample.hand_crop_args Sample.three_images).
  vm_compute. reflexivity.
Defined.

Lemma saved_image_is_cast_only_when_displayed_witness :
  exists sg s' t,
    loop_body Sample.ext Sample.args Sample.three_images (initial_state Sample.args)
      = (sg, s', t)
    /\ In (SaveResImg "out" "a.jpg" (480, 640, 5%nat)) t
    /\ sg = Val tt /\ out_dir Sample.args = Some "out".
Proof.
  destruct (loop_body Sample.ext Sample.args Sample.three_images
              (initial_state Sample.args)) as [[sg s'] t] eqn:Hb.
  assert (Hin : In (SaveResImg "out" "a.jpg" (480, 640, 5%nat)) t).
  { vm_compute in Hb. inversion Hb. do 11 right. left. reflexivity. }
  exists sg, s', t. split; [reflexivity |]. split; [exact Hin |].
  destruct (saved_image_is_cast_only_when_displayed Sample.ext Sample.args
              Sample.three_images _ _ _ _ _ _ _ Hb Hin) as (Hsg & Hd & _).
  split; assumption.
Defined.

Lemma saved_pkl_lists_agree_witness :
  exists sg s' t,
    loop_body Sample.ext Sample.args Sample.three_images (initial_state Sample.args)
      = (sg, s', t)
    /\ In (SavePredToPkl "hand" "a.jpg" [[1; 2; 300; 400]] [Sample.one_left_box]
             [Sample.left_only]) t
    /\ len [Sample.one_left_box] = len [[1; 2; 300; 400]]
    /\ len [[1; 2; 300; 400]] = len [Sample.left_only].
Proof.
  destruct (loop_body Sample.ext Sample.args Sample.three_images
              (initial_state Sample.args)) as [[sg s'] t] eqn:Hb.
  assert (Hin : In (SavePredToPkl "hand" "a.jpg" [[1; 2; 300; 400]]
                      [Sample.one_left_box] [Sample.left_only]) t).
  { vm_compute in Hb. inversion Hb. do 12 right. left. reflexivity. }
  exists sg, s', t. split; [reflexivity |]. split; [exact Hin |].
  destruct (saved_pkl_lists_agree Sample.ext Sample.args Sample.three_images
              _ _ _ _ _ _ _ _ _ Hb Hin) as (_ & _ & _ & H1 & H2 & _).
  split; assumption.
Defined.

Lemma regress_gets_the_frame_and_its_boxes_witness :
  exists sg s' t,
    loop_body Sample.ext Sample.args Sample.three_images (initial_state Sample.args)
      = (sg, s', t)
    /\ In (Regress (480, 640, 5%nat) [Sample.one_left_box] true) t
    /\ frame_source Sample.ext Sample.args Sample.three_images
         (initial_state Sample.args) (480, 640, 5%nat) [Sample.one_left_box].
Proof.
  destruct (loop_body Sample.ext Sample.args Sample.three_images
              (initial_state Sample.args)) as [[sg s'] t] eqn:Hb.
  assert (Hin : In (Regress (480, 640, 5%nat) [Sample.one_left_box] true) t).
  { vm_compute in Hb. inversion Hb. do 4 right. left. reflexivity. }
  exists sg, s', t. split; [reflexivity |]. split; [exact Hin |].
  exact (proj2 (proj2 (regress_gets_the_frame_and_its_boxes Sample.ext Sample.args
                         Sample.three_images _ _ _ _ _ _ _ Hb Hin))).
Defined.

Lemma directory_frames_are_visited_in_order_witness :
  map it_frame
    (run_passes (run_hand_mocap Sample.ext_no_hand Sample.args Sample.three_images))
  = map (fun i => start_frame Sample.args + Z.of_nat i)
      (seq 0
         (List.length
            (run_passes
               (run_hand_mocap Sample.ext_no_hand Sample.args Sample.three_images)))).
Proof.
  apply (directory_frames_are_visited_in_order Sample.ext_no_hand Sample.args
           Sample.three_images).
  reflexivity.
Defined.
